(** * Compact IR validation and scoring (packages/training/src/modal/eval.py)

    A shallow embedding of the evaluation utilities of the cad0 training
    package: the pattern table [COMPACT_IR_PATTERNS], [validate_syntax],
    [validate_references], the validity and exact-match part of
    [evaluate_single], and the aggregation of [evaluate_model] and
    [compute_metrics].

    Conventions of the embedding.
    - A Python [str] is a list of characters; a character is a code point
      below 256 (Rocq's [ascii]).  On that range Python's notion of white
      space ([str.isspace], [str.strip], [str.split()] and the [\s] of [re]
      all use the same table) is 9-13, 28-32, 133 and 160, and the decimal
      digits ([\d], [int]) are "0".."9".
    - Python integers are unbounded: [Z] for values read by [int], [nat] for
      the loop counters.  The interpreter's optional cap on the length of a
      decimal string given to [int] is not part of the model; the generation
      step produces at most 256 new tokens, far below that cap.
    - A function that can raise returns a [result]; one that cannot returns
      its value directly.
    - Model inference ([generate_completion]) is outside the embedding: the
      generated text is an argument.

    Besides the validators, the file embeds the extraction of the IR from a
    decoded generation ([generate_completion]; [generate_sample] of
    train.py), [print_eval_report], [load_dataset] and [analyze_dataset] of
    data.py from the loaded rows on, and the run name that [train] of
    modal_app.py derives. *)

From Stdlib Require Import List Ascii String Bool Arith ZArith QArith Lia.
From Stdlib Require Import Permutation Sorted DecimalString.
Import ListNotations.

Close Scope Q_scope.
Local Open Scope char_scope.
Local Open Scope list_scope.
Local Open Scope nat_scope.

(** ** Strings *)

Definition str := list ascii.

(** A string literal of the source. *)
Definition lit (s : string) : str := list_ascii_of_string s.

Definition is_empty (s : str) : bool :=
  match s with [] => true | _ :: _ => false end.

(** [str.isspace] on one character. *)
Definition isspace (c : ascii) : bool :=
  let n := nat_of_ascii c in
  ((9 <=? n) && (n <=? 13)) || ((28 <=? n) && (n <=? 32))
  || (n =? 133) || (n =? 160).

(** Decimal digit: what [\d] matches and [int] reads. *)
Definition isdigit (c : ascii) : bool :=
  let n := nat_of_ascii c in (48 <=? n) && (n <=? 57).

(** Dropping the leading, and the trailing, characters that satisfy [p]. *)
Fixpoint lstrip_by (p : ascii -> bool) (s : str) : str :=
  match s with
  | [] => []
  | c :: s' => if p c then lstrip_by p s' else s
  end.

Fixpoint rstrip_by (p : ascii -> bool) (s : str) : str :=
  match s with
  | [] => []
  | c :: s' =>
      match rstrip_by p s' with
      | [] => if p c then [] else [c]
      | r => c :: r
      end
  end.

Definition lstrip (s : str) : str := lstrip_by isspace s.

Definition rstrip (s : str) : str := rstrip_by isspace s.

(** [s.strip()] *)
Definition strip (s : str) : str := rstrip (lstrip s).

(** [s.split(sep)] for a one-character separator: the result is never
    empty, and adjacent separators delimit empty pieces. *)
Fixpoint split_on (sep : ascii) (s : str) : list str :=
  match s with
  | [] => [[]]
  | c :: s' =>
      if Ascii.eqb c sep then [] :: split_on sep s'
      else match split_on sep s' with
           | [] => [[c]]
           | piece :: pieces => (c :: piece) :: pieces
           end
  end.

(** [s.split()] with no argument: maximal runs of non-space characters.
    [cur] is the token being read. *)
Fixpoint split_ws_from (cur : str) (s : str) : list str :=
  match s with
  | [] => if is_empty cur then [] else [cur]
  | c :: s' =>
      if isspace c
      then (if is_empty cur then split_ws_from [] s'
            else cur :: split_ws_from [] s')
      else split_ws_from (cur ++ [c]) s'
  end.

Definition split_ws (s : str) : list str := split_ws_from [] s.

(** [s[:n]] *)
Definition prefix (n : nat) (s : str) : str := firstn n s.

(** Decimal rendering of an integer, as an f-string field does it. *)
Definition str_of_Z (z : Z) : str := lit (NilZero.string_of_int (Z.to_int z)).

Definition str_of_nat (n : nat) : str := str_of_Z (Z.of_nat n).

(** [a == b] on strings. *)
Fixpoint str_eqb (a b : str) : bool :=
  match a, b with
  | [], [] => true
  | c :: a', d :: b' => Ascii.eqb c d && str_eqb a' b'
  | _, _ => false
  end.

(** ** Results of functions that can raise *)

Inductive exn : Type := ValueError | IndexError.

Inductive result (A : Type) : Type :=
| Ret (a : A)
| Raise (e : exn).

Arguments Ret {A} a.
Arguments Raise {A} e.

Definition bind {A B : Type} (m : result A) (f : A -> result B) : result B :=
  match m with
  | Ret a => f a
  | Raise e => Raise e
  end.

Notation "x <- m ;; f" := (bind m (fun x => f))
  (at level 61, m at next level, right associativity).

(** The white space that [int] drops around a number: the table of
    [isspace] without 28-31. *)
Definition int_space (c : ascii) : bool :=
  let n := nat_of_ascii c in
  ((9 <=? n) && (n <=? 13)) || (n =? 32) || (n =? 133) || (n =? 160).

(** [int(s)] on a string: surrounding white space is dropped, one sign is
    allowed, and single underscores may separate digits. *)
Fixpoint int_digits (acc : Z) (after_digit : bool) (s : str) : option Z :=
  match s with
  | [] => if after_digit then Some acc else None
  | c :: s' =>
      if Ascii.eqb c "_"
      then (if after_digit then int_digits acc false s' else None)
      else if isdigit c
           then int_digits (10 * acc + (Z.of_nat (nat_of_ascii c) - 48)) true s'
           else None
  end.

Definition int (s : str) : result Z :=
  let parsed :=
    match rstrip_by int_space (lstrip_by int_space s) with
    | c :: s' =>
        if Ascii.eqb c "+" then int_digits 0 false s'
        else if Ascii.eqb c "-" then option_map Z.opp (int_digits 0 false s')
        else int_digits 0 false (c :: s')
    | [] => None
    end in
  match parsed with
  | Some z => Ret z
  | None => Raise ValueError
  end.

(** ** The fragment of [re] syntax used by the pattern table *)

Inductive cclass : Type :=
| Space       (* \s *)
| Digit       (* \d *)
| DigitDot.   (* [\d.] *)

Definition in_class (k : cclass) (c : ascii) : bool :=
  match k with
  | Space => isspace c
  | Digit => isdigit c
  | DigitDot => isdigit c || Ascii.eqb c "."
  end.

Inductive regex : Type :=
| Chr (c : ascii)          (* a literal character *)
| Plus (k : cclass)        (* k+ *)
| Opt (r : regex)          (* r? *)
| Seq (r1 r2 : regex).     (* r1 r2 *)

(** Backtracking matcher in continuation style: [cont] decides the rest of
    the subject.  [k+] is greedy, and gives characters back one at a time. *)
Fixpoint plus_exec (k : cclass) (cont : str -> bool) (s : str) : bool :=
  match s with
  | [] => false
  | c :: s' => in_class k c && (plus_exec k cont s' || cont s')
  end.

Fixpoint exec (r : regex) (cont : str -> bool) (s : str) : bool :=
  match r with
  | Chr c =>
      match s with
      | c' :: s' => Ascii.eqb c c' && cont s'
      | [] => false
      end
  | Plus k => plus_exec k cont s
  | Opt r' => exec r' cont s || cont s
  | Seq r1 r2 => exec r1 (exec r2 cont) s
  end.

(** [$] without MULTILINE: the end of the subject, or just before a line
    feed that is its last character. *)
Definition at_end (s : str) : bool :=
  match s with
  | [] => true
  | [c] => Ascii.eqb c "010"
  | _ => false
  end.

(** [pattern.match(s)] for a pattern [^r$], as a truth value. *)
Definition re_match (r : regex) (s : str) : bool := exec r at_end s.

Definition ws : regex := Plus Space.                     (* \s+ *)
Definition num : regex := Plus DigitDot.                 (* [\d.]+ *)
Definition snum : regex := Seq (Opt (Chr "-")) num.      (* -?[\d.]+ *)
Definition idx : regex := Plus Digit.                    (* \d+ *)

(** [r0 r1 ... rn] *)
Fixpoint seq (r : regex) (rs : list regex) : regex :=
  match rs with
  | [] => r
  | r' :: rs' => Seq r (seq r' rs')
  end.

(** Compact IR syntax patterns, in the order of the dictionary. *)
Definition COMPACT_IR_PATTERNS : list (str * regex) :=
  [ (lit "cube",         seq (Chr "C") [ws; num; ws; num; ws; num]);
    (lit "cylinder",     seq (Chr "Y") [ws; num; ws; num]);
    (lit "sphere",       seq (Chr "S") [ws; num]);
    (lit "cone",         seq (Chr "K") [ws; num; ws; num; ws; num]);
    (lit "translate",    seq (Chr "T") [ws; idx; ws; snum; ws; snum; ws; snum]);
    (lit "rotate",       seq (Chr "R") [ws; idx; ws; snum; ws; snum; ws; snum]);
    (lit "scale",        seq (Chr "S") [Chr "C"; ws; idx; ws; num; ws; num; ws; num]);
    (lit "union",        seq (Chr "U") [ws; idx; ws; idx]);
    (lit "difference",   seq (Chr "D") [ws; idx; ws; idx]);
    (lit "intersection", seq (Chr "I") [ws; idx; ws; idx]) ].

(** ** validate_syntax *)

Definition verdict : Type := bool * option str.

(** The inner [for op_type, pattern in ...items()] loop: stops at the first
    pattern that matches, having set [matched] and advanced [node_count]. *)
Fixpoint scan_patterns (pats : list (str * regex)) (line : str)
  (node_count : nat) : bool * nat :=
  match pats with
  | [] => (false, node_count)
  | (_, pattern) :: pats' =>
      if re_match pattern line then (true, S node_count)
      else scan_patterns pats' line node_count
  end.

(** The [for i, line in enumerate(lines)] loop and the code after it.  The
    second component is [node_count] when the function returns. *)
Fixpoint syntax_loop (pats : list (str * regex)) (lines : list str)
  (i node_count : nat) : verdict * nat :=
  match lines with
  | [] =>
      if node_count =? 0
      then ((false, Some (lit "No valid operations found")), node_count)
      else ((true, None), node_count)
  | l :: lines' =>
      let line := strip l in
      if is_empty line then syntax_loop pats lines' (S i) node_count
      else
        let (matched, node_count') := scan_patterns pats line node_count in
        if matched then syntax_loop pats lines' (S i) node_count'
        else ((false,
               Some (lit "Invalid syntax at line " ++ str_of_nat (i + 1)
                     ++ lit ": " ++ prefix 50 line)),
              node_count')
  end.

(** [validate_syntax] over a given pattern table. *)
Definition validate_syntax_with (pats : list (str * regex)) (ir : str)
  : verdict :=
  if is_empty ir || is_empty (strip ir)
  then (false, Some (lit "Empty IR"))
  else fst (syntax_loop pats (split_on "010" (strip ir)) 0 0).

Definition validate_syntax (ir : str) : verdict :=
  validate_syntax_with COMPACT_IR_PATTERNS ir.

(** ** validate_references *)

(** [op in (...)] *)
Definition mem (op : str) (ops : list str) : bool := existsb (str_eqb op) ops.

(** The body of the loop for one non-blank line, from [parts = line.split()]
    on: [Some v] is [return v], [None] falls through to [node_index += 1]. *)
Definition check_parts (parts : list str) (node_index : nat)
  : result (option verdict) :=
  match parts with
  | [] => Raise IndexError
  | op :: _ =>
      if mem op [lit "T"; lit "R"; lit "SC"] then
        if 2 <=? List.length parts then
          r <- int (nth 1 parts []) ;;
          if (Z.of_nat node_index <=? r)%Z
          then Ret (Some (false,
                  Some (lit "Invalid reference " ++ str_of_Z r
                        ++ lit " at node " ++ str_of_nat node_index)))
          else Ret None
        else Ret None
      else if mem op [lit "U"; lit "D"; lit "I"] then
        if 3 <=? List.length parts then
          r1 <- int (nth 1 parts []) ;;
          r2 <- int (nth 2 parts []) ;;
          if (Z.of_nat node_index <=? r1)%Z || (Z.of_nat node_index <=? r2)%Z
          then Ret (Some (false,
                  Some (lit "Invalid references " ++ str_of_Z r1 ++ lit ", "
                        ++ str_of_Z r2 ++ lit " at node "
                        ++ str_of_nat node_index)))
          else Ret None
        else Ret None
      else Ret None
  end.

Fixpoint references_loop (lines : list str) (node_index : nat)
  : result verdict :=
  match lines with
  | [] => Ret (true, None)
  | l :: lines' =>
      let line := strip l in
      if is_empty line then references_loop lines' node_index
      else
        match check_parts (split_ws line) node_index with
        | Raise e => Raise e
        | Ret (Some v) => Ret v
        | Ret None => references_loop lines' (S node_index)
        end
  end.

Definition validate_references (ir : str) : result verdict :=
  references_loop (split_on "010" (strip ir)) 0.

(** ** evaluate_single, from the generated text on *)

Module EvalMetrics.
Record t : Type := mk {
  syntax_valid : bool;
  geometry_valid : option bool;
  exact_match : bool;
  generated_ir : str;
  error_message : option str
}.
End EvalMetrics.

(** Lines 200-205: syntax, then references only when the syntax is valid. *)
Definition is_ir_valid (generated_ir : str) : result verdict :=
  let (syntax_valid, syntax_error) := validate_syntax generated_ir in
  if syntax_valid then
    rv <- validate_references generated_ir ;;
    let (ref_valid, ref_error) := rv : verdict in
    if negb ref_valid then Ret (false, ref_error)
    else Ret (syntax_valid, syntax_error)
  else Ret (syntax_valid, syntax_error).

(** Lines 208-210. *)
Definition exact_match (target_ir generated_ir : str) : bool :=
  str_eqb (strip target_ir) (strip generated_ir).

Section EvaluateSingle.

(** The geometry engine is opaque; only whether one was passed matters. *)
Variable Engine : Type.

Definition evaluate_single (generated_ir example_ir : str)
  (validate_geometry : bool) (engine : option Engine)
  : result EvalMetrics.t :=
  v <- is_ir_valid generated_ir ;;
  let (syntax_valid, syntax_error) := v : verdict in
  let geometry_valid :=
    if validate_geometry && syntax_valid
       && (match engine with Some _ => true | None => false end)
    then Some true
    else None in
  Ret (EvalMetrics.mk syntax_valid geometry_valid
         (exact_match example_ir generated_ir) generated_ir syntax_error).

End EvaluateSingle.

Arguments evaluate_single {Engine}.

(** ** Aggregation *)

Module AggregateMetrics.
Record t : Type := mk {
  total : nat;
  syntax_valid : nat;
  geometry_valid : nat;
  exact_match : nat;
  syntax_accuracy : Q;
  geometry_accuracy : Q;
  exact_match_accuracy : Q;
  errors : list (str * nat)
}.
End AggregateMetrics.

(** A [dict[str, int]] in insertion order. *)
Fixpoint dict_get (d : list (str * nat)) (key : str) (default : nat) : nat :=
  match d with
  | [] => default
  | (k, v) :: d' => if str_eqb k key then v else dict_get d' key default
  end.

Fixpoint dict_set (d : list (str * nat)) (key : str) (v : nat)
  : list (str * nat) :=
  match d with
  | [] => [(key, v)]
  | (k, v') :: d' =>
      if str_eqb k key then (k, v) :: d' else (k, v') :: dict_set d' key v
  end.

(** [error_message.split(":")[0]] *)
Definition error_type (error_message : str) : str :=
  nth 0 (split_on ":" error_message) [].

(** Lines 269-271, for one example. *)
Definition record_error (errors : list (str * nat)) (metrics : EvalMetrics.t)
  : list (str * nat) :=
  match EvalMetrics.error_message metrics with
  | Some msg =>
      if is_empty msg then errors
      else dict_set errors (error_type msg)
                    (dict_get errors (error_type msg) 0 + 1)
  | None => errors
  end.

(** [sum(1 for r in results if p(r))] *)
Definition count {A : Type} (p : A -> bool) (results : list A) : nat :=
  fold_left (fun n r => if p r then n + 1 else n) results 0.

(** [r.geometry_valid is True] *)
Definition is_True (b : option bool) : bool :=
  match b with Some true => true | _ => false end.

(** [a / b] on integers: the exact quotient (Python rounds it to the nearest
    double). *)
Definition true_div (a b : nat) : Q := Qmake (Z.of_nat a) (Pos.of_nat b).

(** Lines 269-290 of [evaluate_model], over the per-example results. *)
Definition aggregate (results : list EvalMetrics.t) : AggregateMetrics.t :=
  let errors := fold_left record_error results [] in
  let total := List.length results in
  let syntax_valid := count EvalMetrics.syntax_valid results in
  let geometry_valid :=
    count (fun r => is_True (EvalMetrics.geometry_valid r)) results in
  let exact_match := count EvalMetrics.exact_match results in
  AggregateMetrics.mk total syntax_valid geometry_valid exact_match
    (if 0 <? total then true_div syntax_valid total else 0%Q)
    (if 0 <? total then true_div geometry_valid total else 0%Q)
    (if 0 <? total then true_div exact_match total else 0%Q)
    errors.

Section EvaluateModel.

Variable Engine : Type.

(** The loop of [evaluate_model] over examples whose completion is given:
    each sample is (generated text, example["ir"]). *)
Fixpoint evaluate_all (samples : list (str * str)) (validate_geometry : bool)
  (engine : option Engine) : result (list EvalMetrics.t) :=
  match samples with
  | [] => Ret []
  | (generated_ir, example_ir) :: samples' =>
      metrics <- evaluate_single generated_ir example_ir validate_geometry engine ;;
      results <- evaluate_all samples' validate_geometry engine ;;
      Ret (metrics :: results)
  end.

Definition evaluate_model (dataset : list (str * str))
  (validate_geometry : bool) (engine : option Engine)
  (max_samples : option nat) : result AggregateMetrics.t :=
  let samples :=
    match max_samples with
    | Some n => firstn (Nat.min n (List.length dataset)) dataset
    | None => dataset
    end in
  results <- evaluate_all samples validate_geometry engine ;;
  Ret (aggregate results).

End EvaluateModel.

Arguments evaluate_all {Engine}.
Arguments evaluate_model {Engine}.

(** [compute_metrics]: the returned dictionary, in insertion order. *)
Definition compute_metrics (eval_results : list EvalMetrics.t)
  : list (str * Q) :=
  let total := List.length eval_results in
  if total =? 0 then
    [ (lit "syntax_accuracy", 0%Q);
      (lit "geometry_accuracy", 0%Q);
      (lit "exact_match_accuracy", 0%Q) ]
  else
    let syntax_valid := count EvalMetrics.syntax_valid eval_results in
    let geometry_valid :=
      count (fun r => is_True (EvalMetrics.geometry_valid r)) eval_results in
    let exact_match := count EvalMetrics.exact_match eval_results in
    [ (lit "syntax_accuracy", true_div syntax_valid total);
      (lit "geometry_accuracy", true_div geometry_valid total);
      (lit "exact_match_accuracy", true_div exact_match total) ].

(** ** The vocabulary of the specification *)

(** Section 4.1 of the specification: each opcode with its operand
    signature. *)
Inductive operand_kind : Type :=
| Decimal          (* [\d.]+ *)
| SignedDecimal    (* -?[\d.]+ *)
| NodeRef.         (* \d+ *)

Definition GRAMMAR : list (str * list operand_kind) :=
  [ (lit "C",  [Decimal; Decimal; Decimal]);
    (lit "Y",  [Decimal; Decimal]);
    (lit "S",  [Decimal]);
    (lit "K",  [Decimal; Decimal; Decimal]);
    (lit "T",  [NodeRef; SignedDecimal; SignedDecimal; SignedDecimal]);
    (lit "R",  [NodeRef; SignedDecimal; SignedDecimal; SignedDecimal]);
    (lit "SC", [NodeRef; Decimal; Decimal; Decimal]);
    (lit "U",  [NodeRef; NodeRef]);
    (lit "D",  [NodeRef; NodeRef]);
    (lit "I",  [NodeRef; NodeRef]) ].

Definition regex_of_kind (k : operand_kind) : regex :=
  match k with
  | Decimal => num
  | SignedDecimal => snum
  | NodeRef => idx
  end.

(** The atoms of the pattern of an entry: the opcode's characters, then
    [\s+] and the operand's pattern for each operand. *)
Definition atoms_of (op : str) (kinds : list operand_kind) : list regex :=
  map Chr op ++ flat_map (fun k => [ws; regex_of_kind k]) kinds.

Definition pattern_of (entry : str * list operand_kind) : regex :=
  match atoms_of (fst entry) (snd entry) with
  | r :: rs => seq r rs
  | [] => Chr "000"
  end.

(** What the pattern of each operand kind accepts as one token. *)
Definition run_of (p : ascii -> bool) (t : str) : bool :=
  negb (is_empty t) && forallb p t.

Definition token_ok (k : operand_kind) (t : str) : bool :=
  match k with
  | Decimal => run_of (in_class DigitDot) t
  | SignedDecimal =>
      match t with
      | c :: t' =>
          if Ascii.eqb c "-" then run_of (in_class DigitDot) t'
          else run_of (in_class DigitDot) t
      | [] => false
      end
  | NodeRef => run_of isdigit t
  end.

Fixpoint conforms (kinds : list operand_kind) (tokens : list str) : bool :=
  match kinds, tokens with
  | [], [] => true
  | k :: kinds', t :: tokens' => token_ok k t && conforms kinds' tokens'
  | _, _ => false
  end.

(** A decimal or integer literal in the usual lexical sense: digits with at
    most one decimal point and at least one digit. *)
Definition is_decimal_literal (t : str) : bool :=
  forallb (in_class DigitDot) t
  && (1 <=? List.length (filter isdigit t))
  && (List.length (filter (Ascii.eqb ".") t) <=? 1).

(** The lines the validators look at: those of the stripped text, each
    stripped.  Line number [i + 1] belongs to index [i] of [ir_lines]; node
    index [k] belongs to index [k] of [logical_lines]. *)
Definition ir_lines (ir : str) : list str :=
  map strip (split_on "010" (strip ir)).

Definition is_blank (line : str) : bool := is_empty (strip line).

Definition logical_lines (ir : str) : list str :=
  filter (fun line => negb (is_empty line)) (ir_lines ir).

(** Some pattern of a table matches the (stripped) line. *)
Definition matches_any (pats : list (str * regex)) (line : str) : bool :=
  existsb (fun entry => re_match (snd entry) line) pats.

Definition matches_grammar (line : str) : bool :=
  matches_any COMPACT_IR_PATTERNS line.

(** A line the syntax loop lets through: blank, or matched by a pattern. *)
Definition line_ok (pats : list (str * regex)) (l : str) : bool :=
  is_blank l || matches_any pats (strip l).

Definition opcode (line : str) : str := nth 0 (split_ws line) [].

Definition operand (k : nat) (line : str) : str := nth k (split_ws line) [].

(** Operand [k] of the line reads as an integer that is at least [n]. *)
Definition operand_ge (k : nat) (line : str) (n : nat) : bool :=
  match int (operand k line) with
  | Ret v => (Z.of_nat n <=? v)%Z
  | Raise _ => false
  end.

(** The line, defining node [n], refers to node [n] or a later one. *)
Definition dangling (n : nat) (line : str) : bool :=
  (mem (opcode line) [lit "T"; lit "R"; lit "SC"] && operand_ge 1 line n)
  || (mem (opcode line) [lit "U"; lit "D"; lit "I"]
      && (operand_ge 1 line n || operand_ge 2 line n)).

(** The outcomes of the specification, read off a verdict. *)
Definition is_no_valid_operations (v : verdict) : bool :=
  match snd v with
  | Some msg => str_eqb msg (lit "No valid operations found")
  | None => false
  end.

Definition fails_dangling (r : result verdict) : Prop :=
  exists rest, r = Ret (false, Some (lit "Invalid reference" ++ rest)).

(** [line] is the first line of the text as given that is neither blank nor
    matched, and [n] is its 1-based number there. *)
Definition first_offending_line (ir : str) (line : str) (n : nat) : Prop :=
  exists before l after,
    split_on "010" ir = before ++ l :: after
    /\ forallb (line_ok COMPACT_IR_PATTERNS) before = true
    /\ line_ok COMPACT_IR_PATTERNS l = false
    /\ strip l = line
    /\ n = List.length before + 1.

(** The same example with another geometry verdict. *)
Definition with_geometry (g : option bool) (r : EvalMetrics.t)
  : EvalMetrics.t :=
  EvalMetrics.mk (EvalMetrics.syntax_valid r) g (EvalMetrics.exact_match r)
    (EvalMetrics.generated_ir r) (EvalMetrics.error_message r).

(** What the aggregation reads of an example. *)
Definition same_counts (r r' : EvalMetrics.t) : Prop :=
  EvalMetrics.syntax_valid r = EvalMetrics.syntax_valid r'
  /\ is_True (EvalMetrics.geometry_valid r)
     = is_True (EvalMetrics.geometry_valid r')
  /\ EvalMetrics.exact_match r = EvalMetrics.exact_match r'
  /\ EvalMetrics.error_message r = EvalMetrics.error_message r'.

(** The pattern table side by side with the grammar. *)
Definition TABLE : list ((str * regex) * (str * list operand_kind)) :=
  combine COMPACT_IR_PATTERNS GRAMMAR.

(** The operand signature of an opcode of the grammar. *)
Fixpoint kinds_of (grammar : list (str * list operand_kind)) (op : str)
  : option (list operand_kind) :=
  match grammar with
  | [] => None
  | (op', kinds) :: grammar' =>
      if str_eqb op' op then Some kinds else kinds_of grammar' op
  end.

(** ** Notions used in the proofs *)

(** A character that is not white space. *)
Definition nonspace (c : ascii) : bool := negb (isspace c).

(** The matcher on a sequence of atoms. *)
Definition exec_list (rs : list regex) (cont : str -> bool) : str -> bool :=
  fold_right exec cont rs.

(** In the grammar, a transform opcode has a node reference as its first
    operand, a boolean opcode has node references as its first two, and no
    opcode is both. *)
Definition refs_lead (entry : str * list operand_kind) : bool :=
  let (op, kinds) := entry in
  (if mem op [lit "T"; lit "R"; lit "SC"]
   then match kinds with
        | NodeRef :: _ => negb (mem op [lit "U"; lit "D"; lit "I"])
        | _ => false
        end
   else true)
  && (if mem op [lit "U"; lit "D"; lit "I"]
      then match kinds with NodeRef :: NodeRef :: _ => true | _ => false end
      else true).

(** The shape of an accepted line, as far as the reference check reads it. *)
Inductive ref_shape (line : str) : Prop :=
| shape_primitive :
    mem (opcode line) [lit "T"; lit "R"; lit "SC"] = false ->
    mem (opcode line) [lit "U"; lit "D"; lit "I"] = false ->
    (exists op tokens, split_ws line = op :: tokens) ->
    ref_shape line
| shape_transform (op t1 : str) (ts : list str) (v : Z) :
    split_ws line = op :: t1 :: ts ->
    mem op [lit "T"; lit "R"; lit "SC"] = true ->
    mem op [lit "U"; lit "D"; lit "I"] = false ->
    token_ok NodeRef t1 = true -> int t1 = Ret v ->
    ref_shape line
| shape_boolean (op t1 t2 : str) (ts : list str) (v1 v2 : Z) :
    split_ws line = op :: t1 :: t2 :: ts ->
    mem op [lit "T"; lit "R"; lit "SC"] = false ->
    mem op [lit "U"; lit "D"; lit "I"] = true ->
    token_ok NodeRef t1 = true -> int t1 = Ret v1 ->
    token_ok NodeRef t2 = true -> int t2 = Ret v2 ->
    ref_shape line.

(** The non-blank lines of a list of raw lines, stripped. *)
Definition nonblank_of (lines : list str) : list str :=
  filter (fun line => negb (is_empty line)) (map strip lines).

(** ** Notions used in the further properties *)

(** The message of the reference check for a dangling line that defines
    node [n]. *)
Definition int_value (t : str) : Z :=
  match int t with
  | Ret v => v
  | Raise _ => 0%Z
  end.

Definition dangling_message (n : nat) (line : str) : str :=
  if mem (opcode line) [lit "T"; lit "R"; lit "SC"]
  then lit "Invalid reference " ++ str_of_Z (int_value (operand 1 line))
       ++ lit " at node " ++ str_of_nat n
  else lit "Invalid references " ++ str_of_Z (int_value (operand 1 line))
       ++ lit ", " ++ str_of_Z (int_value (operand 2 line))
       ++ lit " at node " ++ str_of_nat n.

(** A verdict is well formed when it carries a message exactly when it is a
    failure, and the message is not empty. *)
Definition well_formed (v : verdict) : Prop :=
  v = (true, None)
  \/ exists msg, v = (false, Some msg) /\ is_empty msg = false.

(** The opcodes that define a node from nothing. *)
Definition is_primitive (op : str) : bool :=
  mem op [lit "C"; lit "Y"; lit "S"; lit "K"].

(** The example carries a message that [evaluate_model] counts, and the
    key under which it counts it. *)
Definition has_error (r : EvalMetrics.t) : bool :=
  match EvalMetrics.error_message r with
  | Some msg => negb (is_empty msg)
  | None => false
  end.

Definition has_error_key (key : str) (r : EvalMetrics.t) : bool :=
  match EvalMetrics.error_message r with
  | Some msg => negb (is_empty msg) && str_eqb (error_type msg) key
  | None => false
  end.

(** The sum of the counts of a histogram. *)
Definition dict_sum (d : list (str * nat)) : nat :=
  fold_right (fun kv n => snd kv + n) 0 d.

(** What [evaluate_single] guarantees of each result. *)
Definition coherent (validate_geometry engine_given : bool)
  (m : EvalMetrics.t) : Prop :=
  (EvalMetrics.syntax_valid m = true -> has_error m = false)
  /\ (EvalMetrics.syntax_valid m = false -> has_error m = true)
  /\ EvalMetrics.geometry_valid m
     = (if validate_geometry && EvalMetrics.syntax_valid m && engine_given
        then Some true else None).

Definition is_some {A : Type} (o : option A) : bool :=
  match o with Some _ => true | None => false end.

(** ** Extracting the IR from a decoded generation
       (eval.py [generate_completion], train.py [generate_sample]) *)

(** [s.startswith(p)] *)
Fixpoint starts_with (p s : str) : bool :=
  match p, s with
  | [], _ => true
  | _ :: _, [] => false
  | c :: p', d :: s' => Ascii.eqb c d && starts_with p' s'
  end.

(** [needle in hay] *)
Fixpoint contains (needle hay : str) : bool :=
  match hay with
  | [] => starts_with needle []
  | _ :: hay' => starts_with needle hay || contains needle hay'
  end.

(** The scan of [s.split(sep)] for a separator of any length: occurrences
    are taken from the left and do not overlap.  [skip] counts the
    characters of a found separator still to pass; [cur] is the piece being
    read. *)
Fixpoint split_from (sep : str) (skip : nat) (cur : str) (s : str)
  : list str :=
  match s with
  | [] => [cur]
  | c :: s' =>
      match skip with
      | S k => split_from sep k cur s'
      | 0 =>
          if starts_with sep s
          then cur :: split_from sep (List.length sep - 1) [] s'
          else split_from sep 0 (cur ++ [c]) s'
      end
  end.

(** [s.split(sep)]; the empty separator is refused. *)
Definition split_str (sep s : str) : result (list str) :=
  match sep with
  | [] => Raise ValueError
  | _ :: _ => Ret (split_from sep 0 [] s)
  end.

Definition MARKER : str := lit "Compact IR:".

Definition BLANK_LINE : str := ["010"; "010"].

(** [f"Design: {prompt}\n\nCompact IR:\n"] *)
Definition full_prompt (prompt : str) : str :=
  lit "Design: " ++ prompt ++ ["010"; "010"] ++ lit "Compact IR:" ++ ["010"].

(** eval.py, lines 165-173: the IR part of the decoded text. *)
Definition ir_of_generated (generated : str) : result str :=
  if contains MARKER generated then
    pieces <- split_str MARKER generated ;;
    let ir := strip (last pieces []) in
    if contains BLANK_LINE ir then
      paragraphs <- split_str BLANK_LINE ir ;;
      Ret (nth 0 paragraphs [])
    else Ret ir
  else Ret generated.

(** train.py, lines 314-317: the function ends after the [if], so without
    the marker it returns [None]. *)
Definition sample_of_generated (generated : str) : result (option str) :=
  if contains MARKER generated then
    pieces <- split_str MARKER generated ;;
    Ret (Some (strip (last pieces [])))
  else Ret None.

Section Generation.

(** Tokenizing the full prompt, generating and decoding: the text the model
    gives back for a full prompt. *)
Variable decoded_output : str -> str.

Definition generate_completion (prompt : str) : result str :=
  ir_of_generated (decoded_output (full_prompt prompt)).

Definition generate_sample (prompt : str) : result (option str) :=
  sample_of_generated (decoded_output (full_prompt prompt)).

End Generation.

(** The text up to the first occurrence of [sep]. *)
Fixpoint before (sep s : str) : str :=
  match s with
  | [] => []
  | c :: s' => if starts_with sep s then [] else c :: before sep s'
  end.

(** ** print_eval_report *)

Definition is_empty_list {A : Type} (l : list A) : bool :=
  match l with [] => true | _ :: _ => false end.

(** [sorted(items, key=lambda x: -x[1])]: a stable sort, larger counts
    first.  An item goes before the first item whose count is not larger
    than its own. *)
Fixpoint insert_by_count (kv : str * nat) (sorted : list (str * nat))
  : list (str * nat) :=
  match sorted with
  | [] => [kv]
  | kv' :: rest =>
      if snd kv <? snd kv' then kv' :: insert_by_count kv rest
      else kv :: sorted
  end.

Definition sorted_by_count (items : list (str * nat)) : list (str * nat) :=
  fold_right insert_by_count [] items.

(** The order of the sorted items. *)
Definition count_ge (a b : str * nat) : Prop := snd b <= snd a.

Section Report.

(** [f"{x:.1%}"] on an accuracy: formatting a float is left to the
    interpreter. *)
Variable percent : Q -> str.

(** The lines that [print_eval_report] prints, one per call of [print]. *)
Definition print_eval_report (metrics : AggregateMetrics.t) : list str :=
  let rule := repeat "="%char 60 in
  let ratio (n : nat) :=
    lit " (" ++ str_of_nat n ++ lit "/"
    ++ str_of_nat (AggregateMetrics.total metrics) ++ lit ")" in
  [ "010"%char :: rule;
    lit "Evaluation Report";
    rule;
    lit "Total examples: " ++ str_of_nat (AggregateMetrics.total metrics);
    [];
    lit "Accuracy:";
    lit "  Syntax validity:   "
      ++ percent (AggregateMetrics.syntax_accuracy metrics)
      ++ ratio (AggregateMetrics.syntax_valid metrics);
    lit "  Geometry validity: "
      ++ percent (AggregateMetrics.geometry_accuracy metrics)
      ++ ratio (AggregateMetrics.geometry_valid metrics);
    lit "  Exact match:       "
      ++ percent (AggregateMetrics.exact_match_accuracy metrics)
      ++ ratio (AggregateMetrics.exact_match metrics) ]
  ++ (if is_empty_list (AggregateMetrics.errors metrics) then []
      else [ []; lit "Error breakdown:" ]
           ++ map (fun kv => lit "  " ++ fst kv ++ lit ": "
                             ++ str_of_nat (snd kv))
                  (sorted_by_count (AggregateMetrics.errors metrics)))
  ++ [ rule ].

End Report.

(** ** Data loading (data.py) *)

(** [data[:n]] for an integer [n]: a negative [n] counts from the end. *)
Definition slice_to {A : Type} (n : Z) (data : list A) : list A :=
  if (0 <=? n)%Z then firstn (Z.to_nat n) data
  else firstn (Z.to_nat (Z.of_nat (List.length data) + n)) data.

(** [load_dataset] from the two loaded files on (lines 43-50);
    [Dataset.from_list] keeps the rows and their order. *)
Definition load_dataset {A : Type} (train_data val_data : list A)
  (max_samples : option Z) : list A * list A :=
  match max_samples with
  | Some n => (slice_to n train_data, slice_to (n / 10)%Z val_data)
  | None => (train_data, val_data)
  end.

(** A row of the data, as the training files have them: a string under
    "family", an integer under "complexity", strings under "text" and "ir";
    [None] stands for a key that the row lacks. *)
Module Row.
Record t : Type := mk {
  family : option str;
  complexity : option Z;
  text : option str;
  ir : option str
}.
End Row.

(** A counting dictionary over any key type, in insertion order. *)
Section Counter.

Variable K : Type.
Variable eqb : K -> K -> bool.

Fixpoint counter_get (d : list (K * nat)) (key : K) (default : nat) : nat :=
  match d with
  | [] => default
  | (k, v) :: d' => if eqb k key then v else counter_get d' key default
  end.

Fixpoint counter_set (d : list (K * nat)) (key : K) (v : nat)
  : list (K * nat) :=
  match d with
  | [] => [(key, v)]
  | (k, v') :: d' =>
      if eqb k key then (k, v) :: d' else (k, v') :: counter_set d' key v
  end.

(** [d[key] = d.get(key, 0) + 1] *)
Definition counter_bump (d : list (K * nat)) (key : K) : list (K * nat) :=
  counter_set d key (counter_get d key 0 + 1).

Definition counter_sum (d : list (K * nat)) : nat :=
  fold_right (fun kv n => snd kv + n) 0 d.

End Counter.

Arguments counter_get {K}.
Arguments counter_set {K}.
Arguments counter_bump {K}.
Arguments counter_sum {K}.

Module LengthStats.
Record t : Type := mk { min : nat; max : nat; mean : Q }.
End LengthStats.

Module Stats.
Record t : Type := mk {
  total_examples : nat;
  families : list (str * nat);
  complexity : list (Z * nat);
  text_length_stats : option LengthStats.t;
  ir_length_stats : option LengthStats.t
}.
End Stats.

(** [min(l)], [max(l)] and [sum(l)] of a non-empty list of lengths; the
    code calls them only under [if stats["text_lengths"]]. *)
Definition list_min (x : nat) (l : list nat) : nat := fold_left Nat.min l x.
Definition list_max (x : nat) (l : list nat) : nat := fold_left Nat.max l x.
Definition list_total (l : list nat) : nat := fold_left Nat.add l 0.

Definition length_stats (lengths : list nat) : option LengthStats.t :=
  match lengths with
  | [] => None
  | x :: l =>
      Some (LengthStats.mk (list_min x l) (list_max x l)
              (true_div (list_total lengths) (List.length lengths)))
  end.

Definition get_or {A : Type} (o : option A) (default : A) : A :=
  match o with Some a => a | None => default end.

(** The loop of [analyze_dataset]: the two counters and the two lists of
    lengths after the rows seen so far. *)
Definition analyze_step
  (acc : list (str * nat) * list (Z * nat) * list nat * list nat)
  (example : Row.t)
  : list (str * nat) * list (Z * nat) * list nat * list nat :=
  let '(families, complexity, text_lengths, ir_lengths) := acc in
  (counter_bump str_eqb families (get_or (Row.family example) (lit "unknown")),
   counter_bump Z.eqb complexity (get_or (Row.complexity example) 0%Z),
   text_lengths ++ [List.length (get_or (Row.text example) [])],
   ir_lengths ++ [List.length (get_or (Row.ir example) [])]).

Definition analyze_dataset (dataset : list Row.t) : Stats.t :=
  let '(families, complexity, text_lengths, ir_lengths) :=
    fold_left analyze_step dataset ([], [], [], []) in
  if is_empty_list text_lengths
  then Stats.mk (List.length dataset) families complexity None None
  else Stats.mk (List.length dataset) families complexity
         (length_stats text_lengths) (length_stats ir_lengths).

(** The lengths that [analyze_dataset] records for a row, and the keys
    under which it counts it. *)
Definition text_length (r : Row.t) : nat :=
  List.length (get_or (Row.text r) []).

Definition ir_length (r : Row.t) : nat :=
  List.length (get_or (Row.ir r) []).

Definition family_of (r : Row.t) : str :=
  get_or (Row.family r) (lit "unknown").

Definition complexity_of (r : Row.t) : Z := get_or (Row.complexity r) 0%Z.

(** ** The run name of a training job (modal_app.py, [train]) *)

(** [run_name or f"cad0-{model_name.split('/')[-1]}-lora"] *)
Definition run_name_or_default (run_name : option str) (model_name : str)
  : str :=
  match run_name with
  | Some name =>
      if is_empty name
      then lit "cad0-" ++ last (split_on "/" model_name) [] ++ lit "-lora"
      else name
  | None => lit "cad0-" ++ last (split_on "/" model_name) [] ++ lit "-lora"
  end.

(** An instruction written out: the opcode and its operands, one space
    before each operand. *)
Definition instruction (op : str) (tokens : list str) : str :=
  op ++ flat_map (fun t => " "%char :: t) tokens.

(** The string ends with a character that is not white space. *)
Definition ends_nonspace (s : str) : Prop :=
  exists front c, s = front ++ [c] /\ isspace c = false.

(* ================================================================= *)
(** * Properties *)

(** ** Characters and stripping *)

Lemma str_eqb_eq (a : str) : forall b, str_eqb a b = true <-> a = b.
Proof.
  induction a as [|c a IH]; intros [|d b]; simpl; split; intros H;
    try discriminate; try reflexivity.
  - apply andb_true_iff in H. destruct H as [Hc Ha].
    apply Ascii.eqb_eq in Hc. apply IH in Ha. now subst.
  - injection H as -> ->. rewrite Ascii.eqb_refl. simpl. now apply IH.
Qed.

Lemma str_eqb_refl (a : str) : str_eqb a a = true.
Proof. now apply str_eqb_eq. Qed.

Lemma is_empty_true (s : str) : is_empty s = true <-> s = [].
Proof. destruct s; simpl; split; congruence. Qed.

Lemma is_empty_false (s : str) :
  is_empty s = false <-> exists c t, s = c :: t.
Proof.
  destruct s; simpl; split; try congruence.
  - intros [c [t H]]. discriminate.
  - intros _. eauto.
Qed.

Lemma lstrip_by_nil (p : ascii -> bool) (s : str) :
  lstrip_by p s = [] <-> forallb p s = true.
Proof.
  induction s as [|c s IH]; simpl.
  - tauto.
  - destruct (p c); simpl; [exact IH | split; discriminate].
Qed.

Lemma lstrip_by_head (p : ascii -> bool) (s : str) c t :
  lstrip_by p s = c :: t -> p c = false.
Proof.
  induction s as [|a s IH]; simpl; [discriminate|].
  destruct (p a) eqn:E; [exact IH|].
  intros H. injection H as -> _. exact E.
Qed.

Lemma rstrip_by_nil (p : ascii -> bool) (s : str) :
  rstrip_by p s = [] <-> forallb p s = true.
Proof.
  induction s as [|c s IH]; simpl.
  - tauto.
  - destruct (rstrip_by p s) eqn:E.
    + destruct (p c); simpl; [tauto | split; discriminate].
    + split; [discriminate|].
      intros H. apply andb_true_iff in H. destruct H as [_ H].
      apply IH in H. discriminate.
Qed.

Lemma rstrip_by_cons (p : ascii -> bool) (c : ascii) (s : str) :
  p c = false -> rstrip_by p (c :: s) = c :: rstrip_by p s.
Proof.
  intros H. simpl. destruct (rstrip_by p s); [now rewrite H | reflexivity].
Qed.

(** A string with no character in [p] is left as it is. *)
Lemma strip_by_word (p : ascii -> bool) (t : str) :
  forallb (fun c => negb (p c)) t = true ->
  rstrip_by p (lstrip_by p t) = t.
Proof.
  intros H. assert (Hl : lstrip_by p t = t).
  { destruct t as [|c t]; [reflexivity|]. simpl in *.
    apply andb_true_iff in H. destruct H as [Hc _].
    apply negb_true_iff in Hc. now rewrite Hc. }
  rewrite Hl. clear Hl. induction t as [|c t IH]; [reflexivity|].
  simpl in H. apply andb_true_iff in H. destruct H as [Hc Ht].
  apply negb_true_iff in Hc. rewrite (rstrip_by_cons _ _ _ Hc).
  now rewrite (IH Ht).
Qed.

Lemma lstrip_nil (s : str) : lstrip s = [] <-> forallb isspace s = true.
Proof. apply lstrip_by_nil. Qed.

Lemma lstrip_head (s : str) c t : lstrip s = c :: t -> isspace c = false.
Proof. apply lstrip_by_head. Qed.

Lemma rstrip_nil (s : str) : rstrip s = [] <-> forallb isspace s = true.
Proof. apply rstrip_by_nil. Qed.

Lemma rstrip_cons (c : ascii) (s : str) :
  isspace c = false -> rstrip (c :: s) = c :: rstrip s.
Proof. apply rstrip_by_cons. Qed.

Lemma strip_nil (s : str) : strip s = [] <-> forallb isspace s = true.
Proof.
  unfold strip. rewrite <- lstrip_nil. destruct (lstrip s) eqn:E.
  - simpl. tauto.
  - split; [|discriminate].
    rewrite (rstrip_cons _ _ (lstrip_head _ _ _ E)). discriminate.
Qed.

Lemma strip_head (s : str) c t : strip s = c :: t -> isspace c = false.
Proof.
  unfold strip. destruct (lstrip s) as [|a u] eqn:E; [discriminate|].
  pose proof (lstrip_head _ _ _ E) as Ha.
  rewrite (rstrip_cons _ _ Ha). intros H. injection H as -> _. exact Ha.
Qed.

Lemma strip_cons (c : ascii) (s : str) :
  isspace c = false -> strip (c :: s) = c :: rstrip s.
Proof.
  intros H. unfold strip, lstrip. simpl. rewrite H. now apply rstrip_cons.
Qed.

(** ** Splitting into lines *)

Lemma split_on_cons (sep c : ascii) (s : str) :
  Ascii.eqb c sep = false ->
  exists piece pieces, split_on sep (c :: s) = (c :: piece) :: pieces.
Proof.
  intros H. simpl. rewrite H. destruct (split_on sep s); eauto.
Qed.

Lemma newline_is_space (c : ascii) :
  isspace c = false -> Ascii.eqb c "010" = false.
Proof.
  intros H. destruct (Ascii.eqb c "010") eqn:E; [|reflexivity].
  apply Ascii.eqb_eq in E. subst c. discriminate.
Qed.

(** The first line of a stripped, non-empty text is not blank. *)
Lemma first_line_not_blank (ir : str) :
  is_empty (strip ir) = false ->
  exists l ls,
    split_on "010" (strip ir) = l :: ls /\ is_empty (strip l) = false.
Proof.
  intros H. apply is_empty_false in H. destruct H as [c [t H]].
  rewrite H. pose proof (strip_head _ _ _ H) as Hc.
  destruct (split_on_cons _ _ t (newline_is_space _ Hc)) as [p [ps Hp]].
  exists (c :: p), ps. split; [exact Hp|].
  now rewrite (strip_cons _ _ Hc).
Qed.

(** ** Tokens *)

Local Arguments Ascii.eqb : simpl never.

Lemma split_ws_from_token (t : str) : forall cur rest,
  forallb nonspace t = true ->
  split_ws_from cur (t ++ rest) = split_ws_from (cur ++ t) rest.
Proof.
  induction t as [|c t IH]; intros cur rest H; simpl in *.
  - now rewrite app_nil_r.
  - apply andb_true_iff in H. destruct H as [Hc Ht].
    unfold nonspace in Hc. apply negb_true_iff in Hc. rewrite Hc.
    rewrite (IH _ _ Ht), <- app_assoc. reflexivity.
Qed.

Lemma split_ws_skip (w : str) : forall rest,
  forallb isspace w = true ->
  split_ws_from [] (w ++ rest) = split_ws_from [] rest.
Proof.
  induction w as [|c w IH]; intros rest H; simpl in *; [reflexivity|].
  apply andb_true_iff in H. destruct H as [Hc Hw].
  rewrite Hc. simpl. now apply IH.
Qed.

Lemma split_ws_from_spaces (cur w rest : str) :
  run_of isspace w = true ->
  is_empty cur = false ->
  split_ws_from cur (w ++ rest) = cur :: split_ws_from [] rest.
Proof.
  unfold run_of. intros H Hcur. apply andb_true_iff in H. destruct H as [Hne H].
  destruct w as [|c w]; [discriminate|]. simpl in *.
  apply andb_true_iff in H. destruct H as [Hc Hw].
  rewrite Hc, Hcur. f_equal. now apply split_ws_skip.
Qed.

Lemma at_end_inv (s : str) : at_end s = true -> s = [] \/ s = ["010"].
Proof.
  destruct s as [|c [|d s]]; simpl; intros H; try discriminate; auto.
  apply Ascii.eqb_eq in H. subst. auto.
Qed.

Lemma split_ws_from_end (cur s : str) :
  at_end s = true -> is_empty cur = false -> split_ws_from cur s = [cur].
Proof.
  intros H Hcur. destruct (at_end_inv _ H) as [-> | ->]; simpl; now rewrite Hcur.
Qed.

Ltac ascii_cases c :=
  destruct c as [[] [] [] [] [] [] [] []]; cbv; try reflexivity; try discriminate.

Lemma digit_dot_nonspace (c : ascii) :
  in_class DigitDot c = true -> nonspace c = true.
Proof. ascii_cases c. Qed.

Lemma digit_nonspace (c : ascii) : isdigit c = true -> nonspace c = true.
Proof. ascii_cases c. Qed.

Lemma digit_dot_not_minus (c : ascii) :
  in_class DigitDot c = true -> Ascii.eqb c "-" = false.
Proof. ascii_cases c. Qed.

Lemma forallb_impl {A : Type} (p q : A -> bool) (l : list A) :
  (forall a, p a = true -> q a = true) ->
  forallb p l = true -> forallb q l = true.
Proof.
  intros Hpq. induction l as [|a l IH]; simpl; [reflexivity|].
  intros H. apply andb_true_iff in H. destruct H as [Ha Hl].
  now rewrite (Hpq _ Ha), IH.
Qed.

(** A token accepted for an operand is a non-empty run of non-space
    characters. *)
Lemma token_ok_word (k : operand_kind) (t : str) :
  token_ok k t = true -> run_of nonspace t = true.
Proof.
  unfold run_of. destruct k; simpl.
  - intros H. apply andb_true_iff in H. destruct H as [-> H]. simpl.
    revert H. apply forallb_impl, digit_dot_nonspace.
  - destruct t as [|c t]; [discriminate|]. simpl.
    destruct (Ascii.eqb c "-") eqn:E.
    + apply Ascii.eqb_eq in E. subst c. intros H.
      apply andb_true_iff in H. destruct H as [_ H]. simpl.
      revert H. apply forallb_impl, digit_dot_nonspace.
    + unfold run_of. simpl. intros H.
      apply andb_true_iff in H. destruct H as [Hc Ht].
      rewrite (digit_dot_nonspace c Hc). simpl.
      revert Ht. apply forallb_impl, digit_dot_nonspace.
  - intros H. apply andb_true_iff in H. destruct H as [-> H]. simpl.
    revert H. apply forallb_impl, digit_nonspace.
Qed.

Lemma signed_of_unsigned (t : str) :
  run_of (in_class DigitDot) t = true -> token_ok SignedDecimal t = true.
Proof.
  destruct t as [|c t]; [discriminate|]. intros H. unfold token_ok.
  assert (Hc : in_class DigitDot c = true).
  { unfold run_of in H. simpl in H. now apply andb_true_iff in H. }
  now rewrite (digit_dot_not_minus _ Hc).
Qed.

(** ** The matcher *)

Lemma plus_exec_ext (k : cclass) (c1 c2 : str -> bool) :
  (forall s, c1 s = c2 s) -> forall s, plus_exec k c1 s = plus_exec k c2 s.
Proof.
  intros H. induction s as [|c s IH]; simpl; [reflexivity|].
  now rewrite IH, H.
Qed.

Lemma exec_ext (r : regex) : forall c1 c2 : str -> bool,
  (forall s, c1 s = c2 s) -> forall s, exec r c1 s = exec r c2 s.
Proof.
  induction r as [c | k | r IH | r1 IH1 r2 IH2]; intros c1 c2 H s; simpl.
  - destruct s; [reflexivity | now rewrite H].
  - now apply plus_exec_ext.
  - now rewrite (IH _ _ H), H.
  - apply IH1. intros s'. now apply IH2.
Qed.

Lemma exec_seq (rs : list regex) : forall r cont s,
  exec (seq r rs) cont s = exec_list (r :: rs) cont s.
Proof.
  induction rs as [|r' rs IH]; intros r cont s; simpl; [reflexivity|].
  apply exec_ext. intros s'. apply IH.
Qed.

Lemma exec_chr_inv (c : ascii) (cont : str -> bool) (s : str) :
  exec (Chr c) cont s = true -> exists s', s = c :: s' /\ cont s' = true.
Proof.
  simpl. destruct s as [|c' s']; [discriminate|].
  intros H. apply andb_true_iff in H. destruct H as [E H].
  apply Ascii.eqb_eq in E. subst. eauto.
Qed.

Lemma plus_exec_inv (k : cclass) (cont : str -> bool) : forall s,
  plus_exec k cont s = true ->
  exists t s', s = t ++ s' /\ run_of (in_class k) t = true /\ cont s' = true.
Proof.
  induction s as [|c s IH]; simpl; [discriminate|].
  intros H. apply andb_true_iff in H. destruct H as [Hc H].
  apply orb_true_iff in H. destruct H as [H | H].
  - destruct (IH H) as [t [s' [-> [Ht Hs']]]].
    exists (c :: t), s'. repeat split; [|exact Hs'].
    unfold run_of in *. simpl. rewrite Hc.
    apply andb_true_iff in Ht. now destruct Ht as [_ ->].
  - exists [c], s. repeat split; [|exact H].
    unfold run_of. simpl. now rewrite Hc.
Qed.

Lemma exec_kind_inv (k : operand_kind) (cont : str -> bool) (s : str) :
  exec (regex_of_kind k) cont s = true ->
  exists t s', s = t ++ s' /\ token_ok k t = true /\ cont s' = true.
Proof.
  destruct k.
  - apply plus_exec_inv.
  - change (exec (Chr "-") (plus_exec DigitDot cont) s
            || plus_exec DigitDot cont s = true ->
            exists t s', s = t ++ s' /\ token_ok SignedDecimal t = true
                         /\ cont s' = true).
    intros H. apply orb_true_iff in H. destruct H as [H | H].
    + destruct (exec_chr_inv _ _ _ H) as [s1 [-> H1]].
      destruct (plus_exec_inv _ _ _ H1) as [t [s' [-> [Ht Hs']]]].
      exists ("-" :: t), s'. repeat split; assumption.
    + destruct (plus_exec_inv _ _ _ H) as [t [s' [-> [Ht Hs']]]].
      exists t, s'. repeat split; try assumption.
      now apply signed_of_unsigned.
  - apply plus_exec_inv.
Qed.

Lemma exec_opcode_inv (op : str) (rest : list regex) (cont : str -> bool) :
  forall s,
  exec_list (map Chr op ++ rest) cont s = true ->
  exists s', s = op ++ s' /\ exec_list rest cont s' = true.
Proof.
  induction op as [|c op IH]; intros s H; simpl in *.
  - eauto.
  - destruct s as [|c' s]; [discriminate|].
    apply andb_true_iff in H. destruct H as [E H]. apply Ascii.eqb_eq in E.
    subst c'. destruct (IH _ H) as [s' [-> Hs']]. eauto.
Qed.

(** After the opcode, a match reads [\s+ operand] for each operand and then
    ends: the rest of the line splits into conforming tokens. *)
Lemma operands_shape (kinds : list operand_kind) : forall cur s,
  is_empty cur = false ->
  exec_list (flat_map (fun k => [ws; regex_of_kind k]) kinds) at_end s = true ->
  exists tokens,
    split_ws_from cur s = cur :: tokens /\ conforms kinds tokens = true.
Proof.
  induction kinds as [|k kinds IH]; intros cur s Hcur H; simpl in H.
  - exists []. split; [now apply split_ws_from_end | reflexivity].
  - destruct (plus_exec_inv _ _ _ H) as [w [s1 [-> [Hw H1]]]].
    destruct (exec_kind_inv _ _ _ H1) as [t [s2 [-> [Ht H2]]]].
    pose proof (token_ok_word _ _ Ht) as Hword.
    apply andb_true_iff in Hword. destruct Hword as [Hne Hns].
    apply negb_true_iff in Hne.
    destruct (IH t s2 Hne H2) as [tokens [Hsplit Hconf]].
    exists (t :: tokens). split.
    + rewrite (split_ws_from_spaces _ _ _ Hw Hcur).
      rewrite (split_ws_from_token _ _ _ Hns). simpl. now rewrite Hsplit.
    + simpl. now rewrite Ht, Hconf.
Qed.

Lemma match_shape (op : str) (kinds : list operand_kind) (line : str) :
  run_of nonspace op = true ->
  re_match (pattern_of (op, kinds)) line = true ->
  exists tokens,
    split_ws line = op :: tokens /\ conforms kinds tokens = true
    /\ exists rest, line = op ++ rest.
Proof.
  intros Hop H. apply andb_true_iff in Hop. destruct Hop as [Hne Hns].
  apply negb_true_iff in Hne.
  unfold re_match, pattern_of in H. simpl fst in H. simpl snd in H.
  destruct (atoms_of op kinds) as [|r rs] eqn:E.
  - destruct op; discriminate.
  - rewrite exec_seq, <- E in H. unfold atoms_of in H.
    destruct (exec_opcode_inv _ _ _ _ H) as [s' [-> Hs']].
    destruct (operands_shape _ _ _ Hne Hs') as [tokens [Hsplit Hconf]].
    exists tokens. split; [|split; [exact Hconf | now exists s']].
    unfold split_ws. now rewrite (split_ws_from_token _ _ _ Hns).
Qed.

Lemma patterns_of_grammar :
  map snd COMPACT_IR_PATTERNS = map pattern_of GRAMMAR.
Proof. reflexivity. Qed.

Lemma grammar_opcodes :
  forallb (fun entry => run_of nonspace (fst entry)) GRAMMAR = true.
Proof. reflexivity. Qed.

(** A line accepted by the table begins with the opcode of one entry of the
    grammar and splits into that opcode and operands that conform to the
    entry. *)
Lemma matches_grammar_anchored (line : str) :
  matches_grammar line = true ->
  exists op kinds tokens,
    In (op, kinds) GRAMMAR
    /\ split_ws line = op :: tokens
    /\ conforms kinds tokens = true
    /\ exists rest, line = op ++ rest.
Proof.
  unfold matches_grammar, matches_any. intros H.
  assert (H' : existsb (fun r => re_match r line)
                 (map snd COMPACT_IR_PATTERNS) = true).
  { revert H. generalize COMPACT_IR_PATTERNS.
    induction l as [|e l IH]; simpl; [auto|].
    intros H. apply orb_true_iff in H. destruct H as [-> | H]; [reflexivity|].
    rewrite (IH H). apply orb_true_r. }
  rewrite patterns_of_grammar in H'. apply existsb_exists in H'.
  destruct H' as [r [Hin Hr]]. apply in_map_iff in Hin.
  destruct Hin as [[op kinds] [<- Hin]].
  pose proof grammar_opcodes as Hops. rewrite forallb_forall in Hops.
  destruct (match_shape op kinds line (Hops _ Hin) Hr)
    as [tokens [Hs [Hc Hrest]]].
  exists op, kinds, tokens. auto.
Qed.

Lemma matches_grammar_shape (line : str) :
  matches_grammar line = true ->
  exists op kinds tokens,
    In (op, kinds) GRAMMAR
    /\ split_ws line = op :: tokens
    /\ conforms kinds tokens = true.
Proof.
  intros H.
  destruct (matches_grammar_anchored line H)
    as (op & kinds & tokens & Hin & Hs & Hc & _).
  exists op, kinds, tokens. auto.
Qed.

(** ** Reading integers *)

Lemma digit_not_underscore (c : ascii) :
  isdigit c = true -> Ascii.eqb c "_" = false.
Proof. ascii_cases c. Qed.

Lemma digit_not_sign (c : ascii) :
  isdigit c = true -> Ascii.eqb c "+" = false /\ Ascii.eqb c "-" = false.
Proof. ascii_cases c; split; reflexivity. Qed.

Lemma int_digits_run (t : str) : forall acc after,
  forallb isdigit t = true ->
  (0 <= acc)%Z ->
  is_empty t = false \/ after = true ->
  exists v, int_digits acc after t = Some v /\ (0 <= v)%Z.
Proof.
  induction t as [|c t IH]; intros acc after Hd Hacc Hne;
    cbn [int_digits forallb is_empty] in *.
  - destruct Hne as [Hne | ->]; [discriminate | eauto].
  - apply andb_true_iff in Hd. destruct Hd as [Hc Ht].
    rewrite (digit_not_underscore _ Hc), Hc.
    apply IH; auto.
    assert (48 <= nat_of_ascii c) by (unfold isdigit in Hc;
      apply andb_true_iff in Hc; destruct Hc as [Hc _];
      now apply Nat.leb_le in Hc).
    lia.
Qed.

Lemma strip_word (t : str) : forallb nonspace t = true -> strip t = t.
Proof. apply strip_by_word. Qed.

Lemma digit_not_int_space (c : ascii) :
  isdigit c = true -> negb (int_space c) = true.
Proof. ascii_cases c. Qed.

(** [int] succeeds on every node-reference token. *)
Lemma int_of_ref (t : str) :
  token_ok NodeRef t = true -> exists v, int t = Ret v /\ (0 <= v)%Z.
Proof.
  simpl. unfold run_of. intros H. apply andb_true_iff in H.
  destruct H as [Hne Hd]. apply negb_true_iff in Hne.
  assert (Hs : rstrip_by int_space (lstrip_by int_space t) = t).
  { apply strip_by_word. revert Hd. apply forallb_impl, digit_not_int_space. }
  unfold int. rewrite Hs. destruct t as [|c t]; [discriminate|].
  assert (Hc : isdigit c = true).
  { simpl in Hd. now apply andb_true_iff in Hd. }
  destruct (digit_not_sign _ Hc) as [-> ->].
  destruct (int_digits_run (c :: t) 0%Z false Hd) as [v [-> Hv]];
    [lia | now left | eauto].
Qed.

(** ** The reference check on one accepted line *)

Lemma grammar_refs_lead : forallb refs_lead GRAMMAR = true.
Proof. reflexivity. Qed.

Lemma conforms_cons (k : operand_kind) (kinds : list operand_kind)
  (tokens : list str) :
  conforms (k :: kinds) tokens = true ->
  exists t ts, tokens = t :: ts /\ token_ok k t = true
               /\ conforms kinds ts = true.
Proof.
  destruct tokens as [|t ts]; [discriminate|]. cbn [conforms].
  intros H. apply andb_true_iff in H. destruct H. eauto.
Qed.

Lemma matches_ref_shape (line : str) :
  matches_grammar line = true -> ref_shape line.
Proof.
  intros H.
  destruct (matches_grammar_shape _ H) as (op & kinds & tokens & Hin & Hs & Hc).
  pose proof grammar_refs_lead as Ht. rewrite forallb_forall in Ht.
  specialize (Ht _ Hin). unfold refs_lead in Ht.
  apply andb_true_iff in Ht. destruct Ht as [Ht Hb].
  destruct (mem op [lit "T"; lit "R"; lit "SC"]) eqn:ET.
  - destruct kinds as [|[] kinds]; try discriminate.
    apply negb_true_iff in Ht.
    destruct (conforms_cons _ _ _ Hc) as (t1 & ts & -> & H1 & _).
    destruct (int_of_ref _ H1) as [v [Hv _]].
    eapply shape_transform; eauto.
  - destruct (mem op [lit "U"; lit "D"; lit "I"]) eqn:EB.
    + destruct kinds as [|[] [|[] kinds]]; try discriminate.
      destruct (conforms_cons _ _ _ Hc) as (t1 & ts & -> & H1 & Hc').
      destruct (conforms_cons _ _ _ Hc') as (t2 & ts' & -> & H2 & _).
      destruct (int_of_ref _ H1) as [v1 [Hv1 _]].
      destruct (int_of_ref _ H2) as [v2 [Hv2 _]].
      eapply shape_boolean; eauto.
    + apply shape_primitive; unfold opcode; rewrite Hs; simpl; eauto.
Qed.

Lemma invalid_reference_prefix (a : str) :
  exists rest, lit "Invalid reference " ++ a = lit "Invalid reference" ++ rest.
Proof. exists (" " :: a). reflexivity. Qed.

Lemma invalid_references_prefix (a : str) :
  exists rest, lit "Invalid references " ++ a = lit "Invalid reference" ++ rest.
Proof. exists ("s" :: " " :: a). reflexivity. Qed.

(** On an accepted line the check never raises: it lets the line through
    exactly when the line is not dangling, and otherwise returns an
    "Invalid reference..." failure. *)
Lemma check_parts_accepted (line : str) (n : nat) :
  matches_grammar line = true ->
  (dangling n line = false /\ check_parts (split_ws line) n = Ret None)
  \/ (dangling n line = true
      /\ exists rest,
           check_parts (split_ws line) n
           = Ret (Some (false, Some (lit "Invalid reference" ++ rest)))).
Proof.
  intros H. destruct (matches_ref_shape _ H)
    as [HT HB [op [tokens Hs]]
       | op t1 ts v Hs HT HB H1 Hv
       | op t1 t2 ts v1 v2 Hs HT HB H1 Hv1 H2 Hv2].
  - left. unfold dangling. rewrite HT, HB. split; [reflexivity|].
    unfold opcode in HT, HB. rewrite Hs in *. cbn [nth] in HT, HB.
    unfold check_parts. now rewrite HT, HB.
  - unfold dangling, operand_ge, operand, opcode. rewrite Hs.
    cbn [nth]. rewrite HT, HB, Hv.
    unfold check_parts. rewrite HT. cbn [List.length Nat.leb nth].
    rewrite Hv. cbn [bind andb orb].
    destruct (Z.of_nat n <=? v)%Z; [right | left]; split; try reflexivity.
    destruct (invalid_reference_prefix
                (str_of_Z v ++ lit " at node " ++ str_of_nat n))
      as [rest ->].
    now exists rest.
  - unfold dangling, operand_ge, operand, opcode. rewrite Hs.
    cbn [nth]. rewrite HT, HB, Hv1, Hv2.
    unfold check_parts. rewrite HT, HB.
    cbn [List.length Nat.leb nth]. rewrite Hv1, Hv2. cbn [bind andb orb].
    destruct ((Z.of_nat n <=? v1)%Z || (Z.of_nat n <=? v2)%Z);
      [right | left]; split; try reflexivity.
    destruct (invalid_references_prefix
                (str_of_Z v1 ++ lit ", " ++ str_of_Z v2 ++ lit " at node "
                 ++ str_of_nat n))
      as [rest ->].
    now exists rest.
Qed.

(** ** The syntax loop *)

Lemma scan_patterns_spec (pats : list (str * regex)) (line : str) :
  forall node_count,
  scan_patterns pats line node_count
  = (matches_any pats line,
     if matches_any pats line then S node_count else node_count).
Proof.
  induction pats as [|[name pattern] pats IH]; intros nc; simpl; [reflexivity|].
  destruct (re_match pattern line); simpl; [reflexivity | apply IH].
Qed.

Lemma syntax_loop_step (pats : list (str * regex)) (l : str)
  (lines : list str) (i node_count : nat) :
  line_ok pats l = true ->
  syntax_loop pats (l :: lines) i node_count
  = syntax_loop pats lines (S i)
      (if is_blank l then node_count else S node_count).
Proof.
  unfold line_ok, is_blank. intros H. cbn [syntax_loop].
  destruct (is_empty (strip l)); [reflexivity|].
  simpl in H. now rewrite scan_patterns_spec, H.
Qed.

Lemma syntax_loop_stop (pats : list (str * regex)) (l : str)
  (lines : list str) (i node_count : nat) :
  line_ok pats l = false ->
  syntax_loop pats (l :: lines) i node_count
  = ((false,
      Some (lit "Invalid syntax at line " ++ str_of_nat (i + 1)
            ++ lit ": " ++ prefix 50 (strip l))),
     node_count).
Proof.
  unfold line_ok, is_blank. intros H. cbn [syntax_loop].
  apply orb_false_iff in H. destruct H as [-> H].
  now rewrite scan_patterns_spec, H.
Qed.

(** A successful run has let every line through. *)
Lemma syntax_loop_valid (pats : list (str * regex)) (lines : list str) :
  forall i node_count,
  fst (fst (syntax_loop pats lines i node_count)) = true ->
  forallb (line_ok pats) lines = true.
Proof.
  induction lines as [|l lines IH]; intros i nc H; [reflexivity|].
  cbn [forallb]. destruct (line_ok pats l) eqn:E.
  - rewrite (syntax_loop_step _ _ _ _ _ E) in H. apply IH in H. now rewrite H.
  - now rewrite (syntax_loop_stop _ _ _ _ _ E) in H.
Qed.

(** The first line that is neither blank nor matched ends the run, whatever
    follows it. *)
Lemma syntax_loop_first_error (pats : list (str * regex)) (bad : str)
  (post : list str) (pre : list str) :
  forall i node_count,
  forallb (line_ok pats) pre = true ->
  line_ok pats bad = false ->
  fst (syntax_loop pats (pre ++ bad :: post) i node_count)
  = (false,
     Some (lit "Invalid syntax at line " ++ str_of_nat (i + List.length pre + 1)
           ++ lit ": " ++ prefix 50 (strip bad))).
Proof.
  induction pre as [|l pre IH]; intros i nc Hpre Hbad; cbn [app List.length].
  - rewrite (syntax_loop_stop _ _ _ _ _ Hbad), Nat.add_0_r. reflexivity.
  - cbn [forallb] in Hpre. apply andb_true_iff in Hpre. destruct Hpre as [Hl Hpre].
    rewrite (syntax_loop_step _ _ _ _ _ Hl), (IH _ _ Hpre Hbad).
    now replace (S i + List.length pre + 1) with (i + S (List.length pre) + 1) by lia.
Qed.

(** Once a node has been counted the run cannot end in "No valid operations
    found", and a successful run has counted at least one node. *)
Lemma syntax_loop_counted (pats : list (str * regex)) (lines : list str) :
  forall i node_count,
  0 < node_count ->
  is_no_valid_operations (fst (syntax_loop pats lines i node_count)) = false
  /\ 0 < snd (syntax_loop pats lines i node_count).
Proof.
  induction lines as [|l lines IH]; intros i nc Hnc.
  - cbn [syntax_loop]. destruct nc; [lia|]. simpl. split; [reflexivity | lia].
  - destruct (line_ok pats l) eqn:E.
    + rewrite (syntax_loop_step _ _ _ _ _ E). apply IH.
      destruct (is_blank l); lia.
    + rewrite (syntax_loop_stop _ _ _ _ _ E). split; [reflexivity | exact Hnc].
Qed.

(** ** The reference loop *)

(** On lines that passed the syntax loop the reference loop returns, and its
    verdict is decided by the first dangling line. *)
Lemma references_loop_accepted (lines : list str) :
  forallb (line_ok COMPACT_IR_PATTERNS) lines = true ->
  forall n,
  (references_loop lines n = Ret (true, None)
   /\ forall k line, nth_error (nonblank_of lines) k = Some line ->
                     dangling (n + k) line = false)
  \/ (fails_dangling (references_loop lines n)
      /\ exists k line, nth_error (nonblank_of lines) k = Some line
                        /\ dangling (n + k) line = true).
Proof.
  induction lines as [|l lines IH]; intros Hok n.
  - left. split; [reflexivity|]. intros [|k] line H; discriminate.
  - cbn [forallb] in Hok. apply andb_true_iff in Hok. destruct Hok as [Hl Hok].
    specialize (IH Hok). unfold line_ok, is_blank in Hl.
    unfold nonblank_of. cbn [references_loop map filter].
    destruct (is_empty (strip l)) eqn:E; cbn [negb].
    + apply IH.
    + simpl in Hl. fold (matches_grammar (strip l)) in Hl.
      destruct (check_parts_accepted (strip l) n Hl) as [[Hd ->] | [Hd [rest ->]]].
      * destruct (IH (S n)) as [[Hr Hall] | [Hr [k [line [Hk Hdk]]]]].
        -- left. split; [exact Hr|]. intros [|k] line Hk.
           ++ injection Hk as <-. now rewrite Nat.add_0_r.
           ++ rewrite Nat.add_succ_r. now apply Hall.
        -- right. split; [exact Hr|]. exists (S k), line. split; [exact Hk|].
           now rewrite Nat.add_succ_r.
      * right. split; [now exists rest|].
        exists 0, (strip l). split; [reflexivity | now rewrite Nat.add_0_r].
Qed.

Lemma validate_syntax_true (ir : str) :
  fst (validate_syntax ir) = true ->
  forallb (line_ok COMPACT_IR_PATTERNS) (split_on "010" (strip ir)) = true.
Proof.
  unfold validate_syntax, validate_syntax_with.
  destruct (is_empty ir || is_empty (strip ir)); [discriminate|].
  apply syntax_loop_valid.
Qed.

Lemma validate_references_accepted (ir : str) :
  fst (validate_syntax ir) = true ->
  (validate_references ir = Ret (true, None)
   /\ forall k line, nth_error (logical_lines ir) k = Some line ->
                     dangling k line = false)
  \/ (fails_dangling (validate_references ir)
      /\ exists k line, nth_error (logical_lines ir) k = Some line
                        /\ dangling k line = true).
Proof.
  intros H. apply validate_syntax_true in H.
  exact (references_loop_accepted _ H 0).
Qed.

Lemma not_fails_dangling_ok : ~ fails_dangling (Ret (true, None)).
Proof. intros [rest H]. discriminate. Qed.

(* ================================================================= *)
(** * Examples

    The behaviours listed in the specification's testable properties, and a
    few that pin down the primitives. *)

Example unrecognized_opcode :
  validate_syntax (lit "X 1 2 3")
  = (false, Some (lit "Invalid syntax at line 1: X 1 2 3")).
Proof. reflexivity. Qed.

Example missing_operand :
  validate_syntax (lit "C 1 2")
  = (false, Some (lit "Invalid syntax at line 1: C 1 2")).
Proof. reflexivity. Qed.

Example blank_lines_count_in_line_numbers :
  validate_syntax (lit "C 1 1 1" ++ ["010"; "010"] ++ lit "T 0 -1 -.5 2"
                   ++ ["010"] ++ lit "oops")
  = (false, Some (lit "Invalid syntax at line 4: oops")).
Proof. reflexivity. Qed.

Example dollar_before_final_line_feed :
  re_match (seq (Chr "S") [ws; num]) (lit "S 1" ++ ["010"]) = true
  /\ re_match (seq (Chr "S") [ws; num]) (lit "S 1" ++ ["010"; "010"]) = false.
Proof. split; reflexivity. Qed.

Example int_examples :
  int (lit "007") = Ret 7%Z
  /\ int (lit "+1_0") = Ret 10%Z
  /\ int (lit " -7 ") = Ret (-7)%Z
  /\ int (lit "1__0") = Raise ValueError
  /\ int (lit "1.0") = Raise ValueError
  /\ int ("028" :: lit "5") = Raise ValueError
  /\ int [] = Raise ValueError.
Proof. repeat split; reflexivity. Qed.

Example split_examples :
  split_on "010" (lit "a" ++ ["010"; "010"] ++ lit "b" ++ ["010"])
  = [lit "a"; []; lit "b"; []]
  /\ split_ws (lit "  T   0 " ++ ["009"] ++ lit "1 ") = [lit "T"; lit "0"; lit "1"]
  /\ split_ws (lit "   ") = [].
Proof. repeat split; reflexivity. Qed.

Example references_alone_can_raise :
  validate_references (lit "T x") = Raise ValueError.
Proof. reflexivity. Qed.

Example aggregate_of_nothing :
  aggregate [] = AggregateMetrics.mk 0 0 0 0 0%Q 0%Q 0%Q []
  /\ compute_metrics []
     = [ (lit "syntax_accuracy", 0%Q); (lit "geometry_accuracy", 0%Q);
         (lit "exact_match_accuracy", 0%Q) ].
Proof. split; reflexivity. Qed.

(* ================================================================= *)
(** * The claims *)



(** The two end-to-end scenarios of the specification. *)
Example scenario_valid_program :
  is_ir_valid (lit "C 1.0 1.0 1.0" ++ ["010"] ++ lit "S 0.5" ++ ["010"]
               ++ lit "U 0 1")
  = Ret (true, None).
Proof. reflexivity. Qed.

Example scenario_forward_reference :
  is_ir_valid (lit "C 1.0 1.0 1.0" ++ ["010"] ++ lit "U 0 1")
  = Ret (false, Some (lit "Invalid references 0, 1 at node 1")).
Proof. reflexivity. Qed.

(** C3.  On a string that is empty or all white space, [validate_syntax]
    returns the "Empty IR" failure (the EmptyInput outcome), and so does the
    combined check, which returns rather than raises. *)
Theorem C3_empty_input (s : str) :
  forallb isspace s = true ->
  validate_syntax s = (false, Some (lit "Empty IR"))
  /\ is_ir_valid s = Ret (false, Some (lit "Empty IR")).
Proof.
  intros H. apply strip_nil in H.
  assert (Hv : validate_syntax s = (false, Some (lit "Empty IR"))).
  { unfold validate_syntax, validate_syntax_with. rewrite H.
    now rewrite orb_true_r. }
  split; [exact Hv|]. unfold is_ir_valid. now rewrite Hv.
Qed.

Lemma C3_witness :
  forallb isspace (lit "  " ++ ["010"; "009"]) = true
  /\ validate_syntax (lit "  " ++ ["010"; "009"]) = (false, Some (lit "Empty IR"))
  /\ is_ir_valid (lit "  " ++ ["010"; "009"]) = Ret (false, Some (lit "Empty IR")).
Proof.
  split; [reflexivity|].
  apply (C3_empty_input (lit "  " ++ ["010"; "009"])). reflexivity.
Defined.

(** C4.  [validate_syntax] never returns "No valid operations found".
    Either the input is empty or all white space and the verdict is "Empty
    IR"; or the first line of the stripped text is not blank, and then
    either a pattern matches it, so that the node count is positive when the
    function returns, or none does and the verdict is the syntax failure at
    line 1. *)
Theorem C4_no_valid_operations_unreachable (ir : str) :
  is_no_valid_operations (validate_syntax ir) = false
  /\ ((is_empty ir || is_empty (strip ir) = true
       /\ validate_syntax ir = (false, Some (lit "Empty IR")))
      \/ exists l ls,
           split_on "010" (strip ir) = l :: ls
           /\ is_blank l = false
           /\ ((matches_grammar (strip l) = true
                /\ 0 < snd (syntax_loop COMPACT_IR_PATTERNS (l :: ls) 0 0))
               \/ (matches_grammar (strip l) = false
                   /\ validate_syntax ir
                      = (false,
                         Some (lit "Invalid syntax at line " ++ str_of_nat 1
                               ++ lit ": " ++ prefix 50 (strip l)))))).
Proof.
  unfold validate_syntax, validate_syntax_with.
  destruct (is_empty ir || is_empty (strip ir)) eqn:E.
  - split; [reflexivity|]. left. auto.
  - apply orb_false_iff in E. destruct E as [_ E].
    destruct (first_line_not_blank ir E) as [l [ls [Hs Hl]]]. rewrite Hs.
    destruct (matches_grammar (strip l)) eqn:M.
    + assert (Hok : line_ok COMPACT_IR_PATTERNS l = true).
      { unfold line_ok. fold (matches_grammar (strip l)). rewrite M.
        apply orb_true_r. }
      rewrite (syntax_loop_step _ _ _ _ _ Hok).
      unfold is_blank. rewrite Hl.
      destruct (syntax_loop_counted COMPACT_IR_PATTERNS ls 1 1) as [Hn Hc];
        [lia|].
      split; [exact Hn|]. right. exists l, ls.
      split; [reflexivity|]. split; [exact Hl|]. left.
      split; [exact M|]. rewrite (syntax_loop_step _ _ _ _ _ Hok).
      unfold is_blank. now rewrite Hl.
    + assert (Hbad : line_ok COMPACT_IR_PATTERNS l = false).
      { unfold line_ok, is_blank. fold (matches_grammar (strip l)).
        now rewrite M, Hl. }
      rewrite (syntax_loop_stop _ _ _ _ _ Hbad).
      split; [reflexivity|]. right. exists l, ls.
      split; [reflexivity|]. split; [exact Hl|]. right.
      split; [exact M | reflexivity].
Qed.

Lemma in_logical_lines (ir line : str) :
  fst (validate_syntax ir) = true ->
  In line (logical_lines ir) -> matches_grammar line = true.
Proof.
  intros H Hin. apply validate_syntax_true in H.
  unfold logical_lines, ir_lines in Hin. apply filter_In in Hin.
  destruct Hin as [Hin Hne]. apply in_map_iff in Hin.
  destruct Hin as [l [<- Hl]]. rewrite forallb_forall in H.
  specialize (H _ Hl). unfold line_ok, is_blank in H.
  apply negb_true_iff in Hne. now rewrite Hne in H.
Qed.


(** C7.  [exact_match] holds exactly when the two strings are equal once
    each has been stripped; it is the [exact_match] field that
    [evaluate_single] returns; nothing inside the strings is normalised. *)
Theorem C7_exact_match (target_ir generated_ir : str) :
  (exact_match target_ir generated_ir = true
   <-> strip target_ir = strip generated_ir)
  /\ (forall (Engine : Type) validate_geometry (engine : option Engine) m,
        evaluate_single generated_ir target_ir validate_geometry engine = Ret m
        -> EvalMetrics.exact_match m = exact_match target_ir generated_ir)
  /\ exact_match (lit "C 1 1 1") (lit "  C 1 1 1" ++ ["010"]) = true
  /\ exact_match (lit "C 1 1 1") (lit "C  1 1 1") = false.
Proof.
  split; [apply str_eqb_eq|]. split; [|split; reflexivity].
  intros Engine vg engine m. unfold evaluate_single.
  destruct (is_ir_valid generated_ir) as [[sv se]|e]; cbn [bind];
    [|discriminate].
  intros H. injection H as <-. reflexivity.
Qed.

(** C2, as stated, fails when the text starts with a blank line: in the
    text made of an empty line and then "X", the first line that is neither
    blank nor matched is line 2, but the message names line 1, because lines
    are counted after the text has been stripped. *)
Lemma C2_counterexample :
  first_offending_line ("010" :: lit "X") (lit "X") 2
  /\ validate_syntax ("010" :: lit "X")
     = (false, Some (lit "Invalid syntax at line 1: X"))
  /\ validate_syntax ("010" :: lit "X")
     <> (false,
         Some (lit "Invalid syntax at line " ++ str_of_nat 2 ++ lit ": "
               ++ prefix 50 (lit "X"))).
Proof.
  split; [|split].
  - exists [[]], (lit "X"), []. repeat split; reflexivity.
  - reflexivity.
  - vm_compute. discriminate.
Qed.

Lemma split_single_empty (pre : list str) (bad : str) (post : list str) :
  [[]] = pre ++ bad :: post -> bad = [].
Proof.
  destruct pre as [|l [|l' pre]]; simpl; intros H; try discriminate.
  now injection H.
Qed.

(** The verdict when a line of the stripped text is the first that is
    neither blank nor matched. *)
Lemma validate_syntax_first_error (ir : str) (pre : list str) (bad : str)
  (post : list str) :
  split_on "010" (strip ir) = pre ++ bad :: post ->
  forallb (line_ok COMPACT_IR_PATTERNS) pre = true ->
  line_ok COMPACT_IR_PATTERNS bad = false ->
  validate_syntax ir
  = (false,
     Some (lit "Invalid syntax at line " ++ str_of_nat (List.length pre + 1)
           ++ lit ": " ++ prefix 50 (strip bad))).
Proof.
  intros Hs Hpre Hbad.
  assert (Hne : is_empty ir || is_empty (strip ir) = false).
  { destruct (is_empty (strip ir)) eqn:E.
    - apply is_empty_true in E. rewrite E in Hs. cbn [split_on] in Hs.
      apply split_single_empty in Hs. subst bad. discriminate.
    - destruct ir; [discriminate | reflexivity]. }
  unfold validate_syntax, validate_syntax_with. rewrite Hne, Hs.
  now rewrite (syntax_loop_first_error _ _ _ _ _ _ Hpre Hbad).
Qed.

(** C2, amended.  Let the lines be those of the stripped text.  If every
    line before [bad] is blank or matched and [bad] is neither, then
    [validate_syntax] fails with "Invalid syntax at line N: E", where N is
    the 1-based position of [bad] among those lines and E is the stripped
    [bad] cut to its first 50 characters; the lines after [bad] play no
    part in the result. *)
Theorem C2_first_syntax_error (ir : str) (pre : list str) (bad : str)
  (post : list str) :
  split_on "010" (strip ir) = pre ++ bad :: post ->
  forallb (line_ok COMPACT_IR_PATTERNS) pre = true ->
  line_ok COMPACT_IR_PATTERNS bad = false ->
  validate_syntax ir
  = (false,
     Some (lit "Invalid syntax at line " ++ str_of_nat (List.length pre + 1)
           ++ lit ": " ++ prefix 50 (strip bad)))
  /\ List.length (prefix 50 (strip bad)) <= 50
  /\ (forall post',
        fst (syntax_loop COMPACT_IR_PATTERNS (pre ++ bad :: post') 0 0)
        = fst (syntax_loop COMPACT_IR_PATTERNS (pre ++ bad :: post) 0 0)).
Proof.
  intros Hs Hpre Hbad. split; [|split].
  - now apply (validate_syntax_first_error ir pre bad post).
  - apply firstn_le_length.
  - intros post'.
    now rewrite !(syntax_loop_first_error _ _ _ _ _ _ Hpre Hbad).
Qed.

Lemma C2_witness :
  let ir := lit "C 1 1 1" ++ ["010"; "010"] ++ lit "bad" ++ ["010"]
            ++ lit "C 2 2 2" in
  let pre := [lit "C 1 1 1"; []] in
  let bad := lit "bad" in
  let post := [lit "C 2 2 2"] in
  validate_syntax ir
  = (false,
     Some (lit "Invalid syntax at line " ++ str_of_nat (List.length pre + 1)
           ++ lit ": " ++ prefix 50 (strip bad)))
  /\ List.length (prefix 50 (strip bad)) <= 50
  /\ (forall post',
        fst (syntax_loop COMPACT_IR_PATTERNS (pre ++ bad :: post') 0 0)
        = fst (syntax_loop COMPACT_IR_PATTERNS (pre ++ bad :: post) 0 0)).
Proof.
  apply (C2_first_syntax_error
           (lit "C 1 1 1" ++ ["010"; "010"] ++ lit "bad" ++ ["010"]
            ++ lit "C 2 2 2")
           [lit "C 1 1 1"; []] (lit "bad") [lit "C 2 2 2"]);
    reflexivity.
Defined.

(** ** Tokens of a stripped line *)

Lemma split_ws_from_cons (cur : str) (c : ascii) (s : str) :
  split_ws_from cur (c :: s)
  = if isspace c
    then (if is_empty cur then split_ws_from [] s
          else cur :: split_ws_from [] s)
    else split_ws_from (cur ++ [c]) s.
Proof. reflexivity. Qed.

Lemma split_ws_spaces (w : str) : forall cur,
  forallb isspace w = true ->
  split_ws_from cur w = if is_empty cur then [] else [cur].
Proof.
  induction w as [|c w IH]; intros cur H; [reflexivity|].
  cbn [forallb] in H. apply andb_true_iff in H. destruct H as [Hc Hw].
  rewrite split_ws_from_cons, Hc, (IH [] Hw). reflexivity.
Qed.

Lemma split_ws_from_rstrip (s : str) : forall cur,
  split_ws_from cur (rstrip s) = split_ws_from cur s.
Proof.
  unfold rstrip. induction s as [|c s IH]; intros cur; [reflexivity|].
  cbn [rstrip_by]. destruct (rstrip_by isspace s) as [|a r] eqn:E.
  - apply rstrip_by_nil in E. rewrite (split_ws_from_cons cur c s).
    destruct (isspace c) eqn:Ec.
    + rewrite (split_ws_spaces s [] E). reflexivity.
    + rewrite (split_ws_spaces s _ E), split_ws_from_cons, Ec. reflexivity.
  - rewrite (split_ws_from_cons cur c (a :: r)), (split_ws_from_cons cur c s).
    now rewrite !IH.
Qed.

Lemma split_ws_from_lstrip (s : str) :
  split_ws_from [] (lstrip s) = split_ws_from [] s.
Proof.
  unfold lstrip. induction s as [|c s IH]; [reflexivity|].
  cbn [lstrip_by]. rewrite (split_ws_from_cons [] c s).
  destruct (isspace c) eqn:Ec; [exact IH|].
  now rewrite split_ws_from_cons, Ec.
Qed.

Lemma split_ws_strip (s : str) : split_ws (strip s) = split_ws s.
Proof.
  unfold split_ws, strip.
  now rewrite split_ws_from_rstrip, split_ws_from_lstrip.
Qed.

Lemma split_ws_not_blank (l op : str) (tokens : list str) :
  split_ws l = op :: tokens -> is_blank l = false.
Proof.
  intros H. unfold is_blank. destruct (is_empty (strip l)) eqn:E; [|reflexivity].
  apply is_empty_true, strip_nil in E.
  unfold split_ws in H. rewrite (split_ws_spaces l [] E) in H. discriminate.
Qed.

Lemma kinds_of_grammar (op : str) (kinds : list operand_kind) :
  In (op, kinds) GRAMMAR -> kinds_of GRAMMAR op = Some kinds.
Proof.
  intros H. simpl in H.
  repeat (destruct H as [H | H]; [injection H as <- <-; reflexivity|]).
  contradiction.
Qed.

(** A line whose operands do not conform to the signature of its opcode is
    matched by no pattern. *)
Lemma nonconforming_unmatched (l op : str) (kinds : list operand_kind)
  (tokens : list str) :
  In (op, kinds) GRAMMAR ->
  split_ws l = op :: tokens ->
  conforms kinds tokens = false ->
  line_ok COMPACT_IR_PATTERNS l = false.
Proof.
  intros Hin Hs Hc. unfold line_ok. rewrite (split_ws_not_blank _ _ _ Hs).
  cbn [orb]. fold (matches_grammar (strip l)).
  destruct (matches_grammar (strip l)) eqn:M; [|reflexivity].
  destruct (matches_grammar_shape _ M) as (op' & kinds' & tokens' & Hin' & Hs' & Hc').
  rewrite split_ws_strip, Hs in Hs'. injection Hs' as <- <-.
  apply kinds_of_grammar in Hin, Hin'. rewrite Hin in Hin'.
  injection Hin' as <-. congruence.
Qed.

(** C5, as stated, fails: "C . . ." and "C 1..2 3 4" start with the opcode
    C, their first operand is not a decimal literal, and [validate_syntax]
    accepts both. *)
Lemma C5_counterexample :
  (opcode (lit "C . . .") = lit "C"
   /\ is_decimal_literal (operand 1 (lit "C . . .")) = false
   /\ validate_syntax (lit "C . . .") = (true, None))
  /\ (opcode (lit "C 1..2 3 4") = lit "C"
      /\ is_decimal_literal (operand 1 (lit "C 1..2 3 4")) = false
      /\ validate_syntax (lit "C 1..2 3 4") = (true, None)).
Proof. repeat split; reflexivity. Qed.

(** C5, amended.  A line of the stripped text that starts with an opcode of
    the grammar and whose operands do not conform to that opcode's
    signature is rejected as a syntax violation, where an operand conforms
    when it is a non-empty run of digits and dots for a decimal (so "." and
    "1..2" conform), the same after an optional "-" for a signed decimal,
    and a non-empty run of digits for a node reference, and the operands are
    exactly as many as the signature has.  Conversely the table accepts only
    lines that begin with an opcode of the grammar and split into that
    opcode and conforming operands. *)
Theorem C5_grammar_tokens (ir : str) (pre : list str) (l : str)
  (post : list str) (op : str) (kinds : list operand_kind)
  (tokens : list str) :
  split_on "010" (strip ir) = pre ++ l :: post ->
  forallb (line_ok COMPACT_IR_PATTERNS) pre = true ->
  In (op, kinds) GRAMMAR ->
  split_ws l = op :: tokens ->
  conforms kinds tokens = false ->
  validate_syntax ir
  = (false,
     Some (lit "Invalid syntax at line " ++ str_of_nat (List.length pre + 1)
           ++ lit ": " ++ prefix 50 (strip l)))
  /\ (forall line,
        matches_grammar line = true ->
        exists op' kinds' tokens',
          In (op', kinds') GRAMMAR
          /\ split_ws line = op' :: tokens'
          /\ conforms kinds' tokens' = true
          /\ exists rest, line = op' ++ rest).
Proof.
  intros Hs Hpre Hin Hsplit Hc. split.
  - apply (validate_syntax_first_error ir pre l post Hs Hpre).
    exact (nonconforming_unmatched _ _ _ _ Hin Hsplit Hc).
  - apply matches_grammar_anchored.
Qed.

Lemma C5_witness :
  let ir := lit "S 1" ++ ["010"] ++ lit "C 1 x 3" in
  let pre := [lit "S 1"] in
  let l := lit "C 1 x 3" in
  validate_syntax ir
  = (false,
     Some (lit "Invalid syntax at line " ++ str_of_nat (List.length pre + 1)
           ++ lit ": " ++ prefix 50 (strip l)))
  /\ (forall line,
        matches_grammar line = true ->
        exists op' kinds' tokens',
          In (op', kinds') GRAMMAR
          /\ split_ws line = op' :: tokens'
          /\ conforms kinds' tokens' = true
          /\ exists rest, line = op' ++ rest).
Proof.
  apply (C5_grammar_tokens
           (lit "S 1" ++ ["010"] ++ lit "C 1 x 3") [lit "S 1"]
           (lit "C 1 x 3") [] (lit "C") [Decimal; Decimal; Decimal]
           [lit "1"; lit "x"; lit "3"]);
    try reflexivity.
  simpl. auto.
Defined.

(** C8.  The histogram key is the message up to its first colon.  In a
    syntax failure the line number stands before the colon, and a reference
    failure has no colon at all, so failures of one kind that differ in
    line number or operand fall into different buckets: four failures, two
    of each kind, give four buckets of one. *)
Theorem C8_histogram_splits_error_kinds :
  validate_syntax (lit "X")
  = (false, Some (lit "Invalid syntax at line 1: X"))
  /\ validate_syntax (lit "S 1" ++ ["010"] ++ lit "X")
     = (false, Some (lit "Invalid syntax at line 2: X"))
  /\ error_type (lit "Invalid syntax at line 1: X")
     = lit "Invalid syntax at line 1"
  /\ error_type (lit "Invalid syntax at line 2: X")
     = lit "Invalid syntax at line 2"
  /\ is_ir_valid (lit "T 0 0 0 0")
     = Ret (false, Some (lit "Invalid reference 0 at node 0"))
  /\ is_ir_valid (lit "T 1 0 0 0")
     = Ret (false, Some (lit "Invalid reference 1 at node 0"))
  /\ error_type (lit "Invalid reference 0 at node 0")
     = lit "Invalid reference 0 at node 0"
  /\ error_type (lit "Invalid reference 1 at node 0")
     = lit "Invalid reference 1 at node 0"
  /\ bind (evaluate_model (Engine := unit)
             [ (lit "X", []); (lit "S 1" ++ ["010"] ++ lit "X", []);
               (lit "T 0 0 0 0", []); (lit "T 1 0 0 0", []) ]
             false None None)
          (fun a => Ret (AggregateMetrics.errors a))
     = Ret [ (lit "Invalid syntax at line 1", 1);
             (lit "Invalid syntax at line 2", 1);
             (lit "Invalid reference 0 at node 0", 1);
             (lit "Invalid reference 1 at node 0", 1) ].
Proof. repeat split; vm_compute; reflexivity. Qed.

(** ** Order of the pattern table *)

Lemma matches_any_perm (pats pats' : list (str * regex)) (line : str) :
  Permutation pats pats' -> matches_any pats line = matches_any pats' line.
Proof.
  unfold matches_any. induction 1 as [|e l l' _ IH|e e' l|l l' l'' _ IH1 _ IH2];
    cbn [existsb].
  - reflexivity.
  - now rewrite IH.
  - now rewrite !orb_assoc, (orb_comm (re_match (snd e') line)).
  - now rewrite IH1.
Qed.

Lemma syntax_loop_perm (pats pats' : list (str * regex)) :
  Permutation pats pats' ->
  forall lines i node_count,
  syntax_loop pats lines i node_count = syntax_loop pats' lines i node_count.
Proof.
  intros Hp. induction lines as [|l lines IH]; intros i nc; [reflexivity|].
  cbn [syntax_loop]. rewrite !scan_patterns_spec.
  rewrite (matches_any_perm _ _ (strip l) Hp), !IH. reflexivity.
Qed.

Lemma in_combine_ex {A B : Type} (l : list A) : forall (l' : list B) a,
  List.length l = List.length l' ->
  In a l -> exists b, In (a, b) (combine l l').
Proof.
  induction l as [|x l IH]; intros [|y l'] a Hlen Hin; simpl in *;
    try discriminate; try contradiction.
  destruct Hin as [<- | Hin]; [eauto|].
  destruct (IH l' a) as [b Hb]; [congruence | exact Hin | eauto].
Qed.

Lemma table_entry (e : str * regex) (g : str * list operand_kind) :
  In (e, g) TABLE -> In g GRAMMAR /\ snd e = pattern_of g.
Proof.
  intros H. split; [exact (in_combine_r _ _ _ _ H)|].
  cbv [TABLE GRAMMAR COMPACT_IR_PATTERNS combine In] in H.
  repeat (destruct H as [H | H]; [injection H as <- <-; reflexivity|]).
  contradiction.
Qed.

Lemma in_patterns (e : str * regex) :
  In e COMPACT_IR_PATTERNS ->
  exists g, In (e, g) TABLE /\ In g GRAMMAR /\ snd e = pattern_of g.
Proof.
  intros H.
  destruct (in_combine_ex COMPACT_IR_PATTERNS GRAMMAR e eq_refl H) as [g Hg].
  exists g. split; [exact Hg | now apply table_entry].
Qed.

Lemma table_opcode_inj (e1 e2 : str * regex)
  (g1 g2 : str * list operand_kind) :
  In (e1, g1) TABLE -> In (e2, g2) TABLE -> fst g1 = fst g2 -> e1 = e2.
Proof.
  intros H1 H2 E. cbv [TABLE GRAMMAR COMPACT_IR_PATTERNS combine In] in H1, H2.
  repeat (destruct H1 as [H1 | H1]; [injection H1 as <- <-|]);
    try contradiction;
    repeat (destruct H2 as [H2 | H2]; [injection H2 as <- <-|]);
    try contradiction;
    first [reflexivity | discriminate E].
Qed.

(** No line is matched by two entries of the table. *)
Lemma patterns_disjoint (line : str) (e1 e2 : str * regex) :
  In e1 COMPACT_IR_PATTERNS -> In e2 COMPACT_IR_PATTERNS ->
  re_match (snd e1) line = true -> re_match (snd e2) line = true ->
  e1 = e2.
Proof.
  intros H1 H2 M1 M2.
  destruct (in_patterns _ H1) as [[op1 k1] [T1 [G1 P1]]].
  destruct (in_patterns _ H2) as [[op2 k2] [T2 [G2 P2]]].
  pose proof grammar_opcodes as Hops. rewrite forallb_forall in Hops.
  rewrite P1 in M1. rewrite P2 in M2.
  destruct (match_shape _ _ _ (Hops _ G1) M1) as [t1 [S1 _]].
  destruct (match_shape _ _ _ (Hops _ G2) M2) as [t2 [S2 _]].
  rewrite S1 in S2. injection S2 as E _.
  exact (table_opcode_inj _ _ _ _ T1 T2 E).
Qed.

(** C9.  No line, stripped or not, is matched by two of the ten patterns
    (S and SC included), and [validate_syntax] run over the table in any
    other order returns the same verdict with the same node count. *)
Theorem C9_patterns_disjoint_order_free (pats : list (str * regex)) :
  Permutation pats COMPACT_IR_PATTERNS ->
  (forall line e1 e2,
     In e1 COMPACT_IR_PATTERNS -> In e2 COMPACT_IR_PATTERNS ->
     re_match (snd e1) line = true -> re_match (snd e2) line = true ->
     e1 = e2)
  /\ (forall lines i node_count,
        syntax_loop pats lines i node_count
        = syntax_loop COMPACT_IR_PATTERNS lines i node_count)
  /\ (forall ir, validate_syntax_with pats ir = validate_syntax ir).
Proof.
  intros Hp. split; [exact patterns_disjoint|]. split.
  - now apply syntax_loop_perm.
  - intros ir. unfold validate_syntax, validate_syntax_with.
    now rewrite (syntax_loop_perm _ _ Hp).
Qed.

Lemma C9_witness :
  (forall line e1 e2,
     In e1 COMPACT_IR_PATTERNS -> In e2 COMPACT_IR_PATTERNS ->
     re_match (snd e1) line = true -> re_match (snd e2) line = true ->
     e1 = e2)
  /\ (forall lines i node_count,
        syntax_loop (rev COMPACT_IR_PATTERNS) lines i node_count
        = syntax_loop COMPACT_IR_PATTERNS lines i node_count)
  /\ (forall ir,
        validate_syntax_with (rev COMPACT_IR_PATTERNS) ir = validate_syntax ir).
Proof.
  apply (C9_patterns_disjoint_order_free (rev COMPACT_IR_PATTERNS)).
  apply Permutation_sym, Permutation_rev.
Defined.

Example scale_is_not_sphere :
  map (fun e => re_match (snd e) (lit "SC 0 1 1 1")) COMPACT_IR_PATTERNS
  = [false; false; false; false; false; false; true; false; false; false].
Proof. reflexivity. Qed.

(** ** Counting *)

Lemma count_from {A : Type} (p : A -> bool) (l : list A) : forall n,
  fold_left (fun n r => if p r then n + 1 else n) l n
  = n + List.length (filter p l).
Proof.
  induction l as [|a l IH]; intros n; cbn [fold_left filter].
  - now rewrite Nat.add_0_r.
  - rewrite IH. destruct (p a); cbn [List.length]; lia.
Qed.

Lemma count_filter {A : Type} (p : A -> bool) (l : list A) :
  count p l = List.length (filter p l).
Proof. unfold count. now rewrite count_from. Qed.

Lemma count_congr {A : Type} (p : A -> bool) (R : A -> A -> Prop)
  (l l' : list A) :
  (forall x y, R x y -> p x = p y) -> Forall2 R l l' -> count p l = count p l'.
Proof.
  intros Hp H. rewrite !count_filter.
  induction H as [|x y l l' Hxy _ IH]; [reflexivity|].
  cbn [filter]. rewrite (Hp _ _ Hxy). destruct (p y); cbn [List.length];
    now rewrite IH.
Qed.

Lemma errors_congr (l l' : list EvalMetrics.t) :
  Forall2 same_counts l l' ->
  forall errors,
  fold_left record_error l errors = fold_left record_error l' errors.
Proof.
  induction 1 as [|x y l l' Hxy _ IH]; intros errors; [reflexivity|].
  cbn [fold_left]. unfold record_error at 2 4.
  destruct Hxy as (_ & _ & _ & ->). apply IH.
Qed.

Lemma aggregate_congr (l l' : list EvalMetrics.t) :
  Forall2 same_counts l l' ->
  aggregate l = aggregate l' /\ compute_metrics l = compute_metrics l'.
Proof.
  intros H. unfold aggregate, compute_metrics.
  rewrite (errors_congr _ _ H), (Forall2_length H).
  rewrite (count_congr EvalMetrics.syntax_valid same_counts l l'),
    (count_congr (fun r => is_True (EvalMetrics.geometry_valid r))
       same_counts l l'),
    (count_congr EvalMetrics.exact_match same_counts l l'); auto;
    intros x y (? & ? & ? & ?); assumption.
Qed.

Lemma same_counts_refl (l : list EvalMetrics.t) : Forall2 same_counts l l.
Proof. induction l; constructor; auto. repeat split. Qed.

(** C10.  An example without a geometry verdict adds one to the total and
    nothing to the geometry count, which counts exactly the examples whose
    verdict is [True]; the geometry accuracy is then that count over the
    larger total, and the whole result of the aggregation in
    [evaluate_model] and of [compute_metrics] is what it would be had the
    verdict been [False]. *)
Theorem C10_absent_geometry_counts_as_false
  (pre post : list EvalMetrics.t) (r : EvalMetrics.t) :
  EvalMetrics.geometry_valid r = None ->
  AggregateMetrics.total (aggregate (pre ++ r :: post))
  = S (AggregateMetrics.total (aggregate (pre ++ post)))
  /\ AggregateMetrics.geometry_valid (aggregate (pre ++ r :: post))
     = AggregateMetrics.geometry_valid (aggregate (pre ++ post))
  /\ (forall results,
        AggregateMetrics.geometry_valid (aggregate results)
        = List.length
            (filter (fun x => match EvalMetrics.geometry_valid x with
                              | Some true => true
                              | _ => false
                              end) results))
  /\ AggregateMetrics.geometry_accuracy (aggregate (pre ++ r :: post))
     = true_div (AggregateMetrics.geometry_valid (aggregate (pre ++ post)))
                (S (List.length (pre ++ post)))
  /\ aggregate (pre ++ with_geometry (Some false) r :: post)
     = aggregate (pre ++ r :: post)
  /\ compute_metrics (pre ++ with_geometry (Some false) r :: post)
     = compute_metrics (pre ++ r :: post)
  /\ nth 1 (compute_metrics (pre ++ r :: post)) ([], 0%Q)
     = (lit "geometry_accuracy",
        true_div (AggregateMetrics.geometry_valid (aggregate (pre ++ post)))
                 (S (List.length (pre ++ post)))).
Proof.
  intros Hr.
  assert (Hlen : List.length (pre ++ r :: post) = S (List.length (pre ++ post))).
  { rewrite !length_app. cbn [List.length]. lia. }
  assert (Hgeo : count (fun x => is_True (EvalMetrics.geometry_valid x))
                   (pre ++ r :: post)
                 = count (fun x => is_True (EvalMetrics.geometry_valid x))
                     (pre ++ post)).
  { rewrite !count_filter, !filter_app. cbn [filter]. now rewrite Hr. }
  assert (Hsame : Forall2 same_counts
                    (pre ++ with_geometry (Some false) r :: post)
                    (pre ++ r :: post)).
  { apply Forall2_app; [apply same_counts_refl|].
    constructor; [|apply same_counts_refl].
    unfold same_counts, with_geometry. cbn. rewrite Hr. repeat split. }
  repeat split.
  - exact Hlen.
  - exact Hgeo.
  - intros results. apply count_filter.
  - unfold aggregate. cbn [AggregateMetrics.geometry_accuracy
                            AggregateMetrics.geometry_valid].
    now rewrite Hlen, Hgeo.
  - now apply aggregate_congr.
  - now apply aggregate_congr.
  - unfold compute_metrics, aggregate.
    cbn [AggregateMetrics.geometry_valid]. rewrite Hlen, Hgeo. reflexivity.
Qed.

Lemma C10_witness :
  let r := EvalMetrics.mk true None false (lit "S 1") None in
  let pre := [EvalMetrics.mk true (Some true) true (lit "S 2") None] in
  let post := [EvalMetrics.mk false (Some false) false (lit "X")
                 (Some (lit "Invalid syntax at line 1: X"))] in
  EvalMetrics.geometry_valid r = None
  /\ (AggregateMetrics.total (aggregate (pre ++ r :: post))
      = S (AggregateMetrics.total (aggregate (pre ++ post)))
      /\ AggregateMetrics.geometry_valid (aggregate (pre ++ r :: post))
         = AggregateMetrics.geometry_valid (aggregate (pre ++ post))
      /\ (forall results,
            AggregateMetrics.geometry_valid (aggregate results)
            = List.length
                (filter (fun x => match EvalMetrics.geometry_valid x with
                                  | Some true => true
                                  | _ => false
                                  end) results))
      /\ AggregateMetrics.geometry_accuracy (aggregate (pre ++ r :: post))
         = true_div
             (AggregateMetrics.geometry_valid (aggregate (pre ++ post)))
             (S (List.length (pre ++ post)))
      /\ aggregate (pre ++ with_geometry (Some false) r :: post)
         = aggregate (pre ++ r :: post)
      /\ compute_metrics (pre ++ with_geometry (Some false) r :: post)
         = compute_metrics (pre ++ r :: post)
      /\ nth 1 (compute_metrics (pre ++ r :: post)) ([], 0%Q)
         = (lit "geometry_accuracy",
            true_div
              (AggregateMetrics.geometry_valid (aggregate (pre ++ post)))
              (S (List.length (pre ++ post))))).
Proof.
  split; [reflexivity|].
  apply (C10_absent_geometry_counts_as_false
           [EvalMetrics.mk true (Some true) true (lit "S 2") None]
           [EvalMetrics.mk false (Some false) false (lit "X")
              (Some (lit "Invalid syntax at line 1: X"))]
           (EvalMetrics.mk true None false (lit "S 1") None)).
  reflexivity.
Defined.

Example absent_geometry_lowers_accuracy :
  AggregateMetrics.geometry_accuracy
    (aggregate [EvalMetrics.mk true (Some true) true (lit "S 2") None;
                EvalMetrics.mk true None false (lit "S 1") None])
  = Qmake 1 2.
Proof. reflexivity. Qed.

(* ================================================================= *)
(** * Further properties of the validators *)

(** ** A complete run of the syntax loop *)

Lemma nonblank_of_cons (l : str) (lines : list str) :
  nonblank_of (l :: lines)
  = if is_blank l then nonblank_of lines else strip l :: nonblank_of lines.
Proof.
  unfold nonblank_of, is_blank. cbn [map filter].
  now destruct (is_empty (strip l)).
Qed.

(** When every line is let through, the loop counts the non-blank lines. *)
Lemma syntax_loop_complete (pats : list (str * regex)) (lines : list str) :
  forallb (line_ok pats) lines = true ->
  forall i node_count,
  syntax_loop pats lines i node_count
  = ((if node_count + List.length (nonblank_of lines) =? 0
      then (false, Some (lit "No valid operations found"))
      else (true, None)),
     node_count + List.length (nonblank_of lines)).
Proof.
  induction lines as [|l lines IH]; intros Hok i nc.
  - cbn [syntax_loop nonblank_of map filter List.length].
    rewrite Nat.add_0_r. now destruct (nc =? 0).
  - cbn [forallb] in Hok. apply andb_true_iff in Hok. destruct Hok as [Hl Hok].
    rewrite (syntax_loop_step _ _ _ _ _ Hl), (IH Hok), nonblank_of_cons.
    destruct (is_blank l); cbn [List.length]; [reflexivity|].
    now replace (S nc + List.length (nonblank_of lines))
      with (nc + S (List.length (nonblank_of lines))) by lia.
Qed.

Lemma logical_lines_nonblank (ir : str) :
  logical_lines ir = nonblank_of (split_on "010" (strip ir)).
Proof. reflexivity. Qed.

Lemma logical_lines_first (ir : str) :
  is_empty (strip ir) = false ->
  exists l ls,
    split_on "010" (strip ir) = l :: ls
    /\ is_blank l = false
    /\ logical_lines ir = strip l :: nonblank_of ls.
Proof.
  intros H. destruct (first_line_not_blank ir H) as [l [ls [Hs Hl]]].
  exists l, ls. split; [exact Hs|]. split; [exact Hl|].
  rewrite logical_lines_nonblank, Hs, nonblank_of_cons.
  unfold is_blank. now rewrite Hl.
Qed.

Lemma validate_syntax_succeeds_iff (ir : str) :
  validate_syntax ir = (true, None)
  <-> is_empty (strip ir) = false
      /\ forallb (line_ok COMPACT_IR_PATTERNS) (split_on "010" (strip ir))
         = true.
Proof.
  split.
  - intros H. split.
    + unfold validate_syntax, validate_syntax_with in H.
      destruct (is_empty (strip ir)); [|reflexivity].
      rewrite orb_true_r in H. discriminate.
    + apply validate_syntax_true. now rewrite H.
  - intros [Hne Hok]. unfold validate_syntax, validate_syntax_with.
    assert (Hir : is_empty ir = false).
    { destruct ir; [discriminate | reflexivity]. }
    rewrite Hir, Hne. cbn [orb].
    rewrite (syntax_loop_complete _ _ Hok). cbn [fst].
    destruct (logical_lines_first ir Hne) as [l [ls [_ [_ Hl]]]].
    rewrite <- logical_lines_nonblank, Hl. reflexivity.
Qed.

(** X1.  [validate_syntax] succeeds exactly on the texts that are not empty
    once stripped and whose every line, in the stripped text, is blank or
    matched by a pattern of the table. *)
Theorem X1_validate_syntax_succeeds_iff (ir : str) :
  validate_syntax ir = (true, None)
  <-> is_empty (strip ir) = false
      /\ forallb (line_ok COMPACT_IR_PATTERNS) (split_on "010" (strip ir))
         = true.
Proof. apply validate_syntax_succeeds_iff. Qed.

(** X2.  When [validate_syntax] succeeds, the node count it has reached is
    the number of non-blank lines of the text, and it is positive. *)
Theorem X2_node_count_is_nonblank_lines (ir : str) :
  validate_syntax ir = (true, None) ->
  snd (syntax_loop COMPACT_IR_PATTERNS (split_on "010" (strip ir)) 0 0)
  = List.length (logical_lines ir)
  /\ 0 < List.length (logical_lines ir).
Proof.
  intros H. apply validate_syntax_succeeds_iff in H. destruct H as [Hne Hok].
  rewrite (syntax_loop_complete _ _ Hok). cbn [snd Nat.add]. split; [reflexivity|].
  destruct (logical_lines_first ir Hne) as [l [ls [_ [_ Hl]]]].
  rewrite Hl. cbn [List.length]. lia.
Qed.

Lemma X2_witness :
  validate_syntax (lit "S 1" ++ ["010"; "010"] ++ lit "T 0 1 2 3")
  = (true, None)
  /\ (snd (syntax_loop COMPACT_IR_PATTERNS
            (split_on "010"
               (strip (lit "S 1" ++ ["010"; "010"] ++ lit "T 0 1 2 3"))) 0 0)
      = List.length
          (logical_lines (lit "S 1" ++ ["010"; "010"] ++ lit "T 0 1 2 3"))
      /\ 0 < List.length
               (logical_lines (lit "S 1" ++ ["010"; "010"] ++ lit "T 0 1 2 3"))).
Proof.
  split; [reflexivity|].
  apply (X2_node_count_is_nonblank_lines
           (lit "S 1" ++ ["010"; "010"] ++ lit "T 0 1 2 3")).
  reflexivity.
Defined.

(** ** Well-formed verdicts *)

Lemma syntax_loop_well_formed (pats : list (str * regex)) (lines : list str) :
  forall i node_count,
  well_formed (fst (syntax_loop pats lines i node_count)).
Proof.
  induction lines as [|l lines IH]; intros i nc.
  - cbn [syntax_loop]. destruct (nc =? 0); [right | left]; cbn [fst]; eauto.
  - destruct (line_ok pats l) eqn:E.
    + rewrite (syntax_loop_step _ _ _ _ _ E). apply IH.
    + rewrite (syntax_loop_stop _ _ _ _ _ E). right. cbn [fst]. eauto.
Qed.

Lemma validate_syntax_well_formed (ir : str) : well_formed (validate_syntax ir).
Proof.
  unfold validate_syntax, validate_syntax_with.
  destruct (is_empty ir || is_empty (strip ir)).
  - right. eauto.
  - apply syntax_loop_well_formed.
Qed.

Lemma is_ir_valid_returns (ir : str) :
  exists v, is_ir_valid ir = Ret v /\ well_formed v
            /\ (fst v = true -> validate_syntax ir = (true, None)).
Proof.
  unfold is_ir_valid.
  destruct (validate_syntax_well_formed ir) as [Hv | [msg [Hv Hmsg]]];
    rewrite Hv.
  - assert (H : fst (validate_syntax ir) = true) by now rewrite Hv.
    destruct (validate_references_accepted ir H) as [[-> _] | [[rest ->] _]];
      cbn [bind negb].
    + exists (true, None). split; [reflexivity|]. split; [now left | auto].
    + eexists. split; [reflexivity|]. split; [|discriminate].
      right. eexists. split; reflexivity.
  - exists (false, Some msg). split; [reflexivity|]. split; [|discriminate].
    right. eauto.
Qed.


(** ** White space around the text *)

Lemma rstrip_by_idem (p : ascii -> bool) (s : str) :
  rstrip_by p (rstrip_by p s) = rstrip_by p s.
Proof.
  induction s as [|c s IH]; [reflexivity|]. cbn [rstrip_by].
  destruct (rstrip_by p s) as [|a r] eqn:E.
  - destruct (p c) eqn:Ec; [reflexivity|]. cbn [rstrip_by]. now rewrite Ec.
  - change (rstrip_by p (c :: a :: r))
      with (match rstrip_by p (a :: r) with
            | [] => if p c then [] else [c]
            | x => c :: x
            end).
    now rewrite IH.
Qed.

Lemma strip_idem (s : str) : strip (strip s) = strip s.
Proof.
  destruct (strip s) as [|c t] eqn:E; [reflexivity|].
  pose proof (strip_head _ _ _ E) as Hc. rewrite <- E.
  unfold strip at 1. unfold lstrip. rewrite E. cbn [lstrip_by]. rewrite Hc.
  rewrite <- E. unfold strip, rstrip. apply rstrip_by_idem.
Qed.

Lemma lstrip_pad (w s : str) :
  forallb isspace w = true -> lstrip (w ++ s) = lstrip s.
Proof.
  unfold lstrip. induction w as [|c w IH]; intros H; [reflexivity|].
  cbn [forallb] in H. apply andb_true_iff in H. destruct H as [Hc Hw].
  cbn [app lstrip_by]. rewrite Hc. now apply IH.
Qed.

Lemma rstrip_pad (s w : str) :
  forallb isspace w = true -> rstrip (s ++ w) = rstrip s.
Proof.
  unfold rstrip. intros H. induction s as [|c s IH].
  - cbn [app]. now apply rstrip_by_nil.
  - cbn [app rstrip_by]. now rewrite IH.
Qed.

Lemma lstrip_app (s t : str) c u :
  lstrip s = c :: u -> lstrip (s ++ t) = lstrip s ++ t.
Proof.
  unfold lstrip. induction s as [|a s IH]; [discriminate|].
  cbn [app lstrip_by]. destruct (isspace a); [exact IH | reflexivity].
Qed.

Lemma forallb_app_true {A : Type} (p : A -> bool) (l l' : list A) :
  forallb p l = true -> forallb p l' = true -> forallb p (l ++ l') = true.
Proof. intros H H'. rewrite forallb_app. now rewrite H, H'. Qed.

Lemma strip_pad (w1 s w2 : str) :
  forallb isspace w1 = true -> forallb isspace w2 = true ->
  strip (w1 ++ s ++ w2) = strip s.
Proof.
  intros H1 H2. unfold strip. rewrite (lstrip_pad _ _ H1).
  destruct (lstrip s) as [|c u] eqn:E.
  - apply lstrip_nil in E.
    assert (H : lstrip (s ++ w2) = []).
    { apply lstrip_nil. now apply forallb_app_true. }
    now rewrite H.
  - rewrite (lstrip_app _ w2 _ _ E), E. now apply rstrip_pad.
Qed.

(** The validators read the text only through its stripped form. *)
Lemma validators_read_stripped (a b : str) :
  strip a = strip b ->
  validate_syntax a = validate_syntax b
  /\ validate_references a = validate_references b
  /\ is_ir_valid a = is_ir_valid b.
Proof.
  intros H.
  assert (He : forall s, is_empty s || is_empty (strip s) = is_empty (strip s)).
  { intros [|c s]; reflexivity. }
  assert (Hs : validate_syntax a = validate_syntax b).
  { unfold validate_syntax, validate_syntax_with. now rewrite !He, H. }
  assert (Hr : validate_references a = validate_references b).
  { unfold validate_references. now rewrite H. }
  split; [exact Hs|]. split; [exact Hr|].
  unfold is_ir_valid. now rewrite Hs, Hr.
Qed.

(** X4.  White space before and after the text does not change any
    verdict: [validate_syntax], [validate_references] and the combined check
    return on the padded text what they return on the text, and on the
    stripped text as well. *)
Theorem X4_verdicts_ignore_outer_white_space (w1 ir w2 : str) :
  forallb isspace w1 = true ->
  forallb isspace w2 = true ->
  (validate_syntax (w1 ++ ir ++ w2) = validate_syntax ir
   /\ validate_references (w1 ++ ir ++ w2) = validate_references ir
   /\ is_ir_valid (w1 ++ ir ++ w2) = is_ir_valid ir)
  /\ (validate_syntax (strip ir) = validate_syntax ir
      /\ validate_references (strip ir) = validate_references ir
      /\ is_ir_valid (strip ir) = is_ir_valid ir).
Proof.
  intros H1 H2. split; apply validators_read_stripped.
  - now apply strip_pad.
  - apply strip_idem.
Qed.

Lemma X4_witness :
  forallb isspace [" "; "010"] = true
  /\ forallb isspace ["009"] = true
  /\ ((validate_syntax ([" "; "010"] ++ lit "S 1" ++ ["009"])
       = validate_syntax (lit "S 1")
       /\ validate_references ([" "; "010"] ++ lit "S 1" ++ ["009"])
          = validate_references (lit "S 1")
       /\ is_ir_valid ([" "; "010"] ++ lit "S 1" ++ ["009"])
          = is_ir_valid (lit "S 1"))
      /\ (validate_syntax (strip (lit "S 1")) = validate_syntax (lit "S 1")
          /\ validate_references (strip (lit "S 1"))
             = validate_references (lit "S 1")
          /\ is_ir_valid (strip (lit "S 1")) = is_ir_valid (lit "S 1"))).
Proof.
  split; [reflexivity|]. split; [reflexivity|].
  apply (X4_verdicts_ignore_outer_white_space [" "; "010"] (lit "S 1") ["009"]);
    reflexivity.
Defined.

(** X5.  A generated text that matches the target exactly gets the verdict
    of the target: the combined check, like [exact_match], reads both texts
    stripped.  [exact_match] is reflexive, symmetric and transitive. *)
Theorem X5_exact_match_shares_verdict (target_ir generated_ir : str) :
  exact_match target_ir generated_ir = true ->
  is_ir_valid generated_ir = is_ir_valid target_ir
  /\ validate_syntax generated_ir = validate_syntax target_ir
  /\ exact_match generated_ir target_ir = true
  /\ exact_match target_ir target_ir = true
  /\ (forall other, exact_match generated_ir other = true ->
                    exact_match target_ir other = true).
Proof.
  unfold exact_match. intros H. apply str_eqb_eq in H.
  destruct (validators_read_stripped generated_ir target_ir (eq_sym H))
    as [Hs [_ Hv]].
  split; [exact Hv|]. split; [exact Hs|]. split; [|split].
  - apply str_eqb_eq. now symmetry.
  - apply str_eqb_refl.
  - intros other Ho. apply str_eqb_eq in Ho. apply str_eqb_eq. congruence.
Qed.

Lemma X5_witness :
  exact_match (lit "S 1") (lit "  S 1" ++ ["010"]) = true
  /\ (is_ir_valid (lit "  S 1" ++ ["010"]) = is_ir_valid (lit "S 1")
      /\ validate_syntax (lit "  S 1" ++ ["010"]) = validate_syntax (lit "S 1")
      /\ exact_match (lit "  S 1" ++ ["010"]) (lit "S 1") = true
      /\ exact_match (lit "S 1") (lit "S 1") = true
      /\ (forall other,
            exact_match (lit "  S 1" ++ ["010"]) other = true ->
            exact_match (lit "S 1") other = true)).
Proof.
  split; [reflexivity|].
  apply (X5_exact_match_shares_verdict (lit "S 1") (lit "  S 1" ++ ["010"])).
  reflexivity.
Defined.

(** ** The reference check on its own *)

Lemma split_ws_from_word (s : str) : forall cur,
  is_empty cur = false -> exists t ts, split_ws_from cur s = t :: ts.
Proof.
  induction s as [|c s IH]; intros cur H.
  - cbn [split_ws_from]. rewrite H. eauto.
  - rewrite split_ws_from_cons, H. destruct (isspace c); [eauto|].
    apply IH. now destruct cur.
Qed.

Lemma split_ws_stripped (l : str) :
  is_empty (strip l) = false -> exists op ts, split_ws (strip l) = op :: ts.
Proof.
  intros H. apply is_empty_false in H. destruct H as [c [t H]].
  pose proof (strip_head _ _ _ H) as Hc. rewrite H.
  unfold split_ws. rewrite split_ws_from_cons, Hc.
  now apply split_ws_from_word.
Qed.

Lemma int_raises_value_error (t : str) :
  (exists v, int t = Ret v) \/ int t = Raise ValueError.
Proof. unfold int. destruct (match _ with [] => _ | _ => _ end); eauto. Qed.

Lemma check_parts_raises (op : str) (ts : list str) (n : nat) :
  (exists o, check_parts (op :: ts) n = Ret o)
  \/ check_parts (op :: ts) n = Raise ValueError.
Proof.
  unfold check_parts.
  destruct (mem op [lit "T"; lit "R"; lit "SC"]).
  - destruct (2 <=? List.length (op :: ts)); [|eauto].
    destruct (int_raises_value_error (nth 1 (op :: ts) [])) as [[v ->] | ->];
      cbn [bind]; [|auto].
    destruct (Z.of_nat n <=? v)%Z; eauto.
  - destruct (mem op [lit "U"; lit "D"; lit "I"]); [|eauto].
    destruct (3 <=? List.length (op :: ts)); [|eauto].
    destruct (int_raises_value_error (nth 1 (op :: ts) [])) as [[v1 ->] | ->];
      cbn [bind]; [|auto].
    destruct (int_raises_value_error (nth 2 (op :: ts) [])) as [[v2 ->] | ->];
      cbn [bind]; [|auto].
    destruct ((Z.of_nat n <=? v1)%Z || (Z.of_nat n <=? v2)%Z); eauto.
Qed.

Lemma references_loop_raises (lines : list str) : forall n,
  (exists v, references_loop lines n = Ret v)
  \/ references_loop lines n = Raise ValueError.
Proof.
  induction lines as [|l lines IH]; intros n; cbn [references_loop]; [eauto|].
  destruct (is_empty (strip l)) eqn:E; [apply IH|].
  destruct (split_ws_stripped l E) as [op [ts ->]].
  destruct (check_parts_raises op ts n) as [[[v|] ->] | ->]; eauto.
Qed.

Lemma references_loop_blank (lines : list str) : forall n,
  forallb is_blank lines = true -> references_loop lines n = Ret (true, None).
Proof.
  induction lines as [|l lines IH]; intros n H; [reflexivity|].
  cbn [forallb] in H. apply andb_true_iff in H. destruct H as [Hl H].
  cbn [references_loop]. unfold is_blank in Hl. rewrite Hl. now apply IH.
Qed.

(** X6.  Called on any text, [validate_references] either returns a verdict
    or raises [ValueError]; the [parts[0]] of its loop never fails.  It does
    not check the syntax: on a text that is empty or all white space it
    returns success. *)
Theorem X6_validate_references_alone (ir : str) :
  ((exists v, validate_references ir = Ret v)
   \/ validate_references ir = Raise ValueError)
  /\ (forallb isspace ir = true -> validate_references ir = Ret (true, None)).
Proof.
  split; [apply references_loop_raises|].
  intros H. apply strip_nil in H. unfold validate_references. now rewrite H.
Qed.

(** ** Valid programs *)

Lemma grammar_opcode_kind (op : str) (kinds : list operand_kind) :
  In (op, kinds) GRAMMAR ->
  is_primitive op = true
  \/ mem op [lit "T"; lit "R"; lit "SC"] = true
  \/ mem op [lit "U"; lit "D"; lit "I"] = true.
Proof.
  intros H. cbv [GRAMMAR In] in H.
  repeat (destruct H as [H | H];
          [injection H as <- _; vm_compute; tauto|]).
  contradiction.
Qed.

(** A line accepted by the table that defines node 0 is dangling unless its
    opcode is a primitive. *)
Lemma first_node_primitive (line : str) :
  matches_grammar line = true ->
  dangling 0 line = false ->
  is_primitive (opcode line) = true.
Proof.
  intros Hm Hd.
  destruct (matches_grammar_shape _ Hm) as (op & kinds & tokens & Hin & Hs & Hc).
  pose proof grammar_refs_lead as Ht. rewrite forallb_forall in Ht.
  specialize (Ht _ Hin). unfold refs_lead in Ht.
  apply andb_true_iff in Ht. destruct Ht as [Ht Hb].
  unfold dangling, operand_ge, operand, opcode in *. rewrite Hs in *.
  cbn [nth] in *.
  destruct (grammar_opcode_kind _ _ Hin) as [Hp | [HT | HB]]; [exact Hp| |].
  - exfalso. rewrite HT in *. destruct kinds as [|[] kinds]; try discriminate.
    destruct (conforms_cons _ _ _ Hc) as (t1 & ts & -> & H1 & _).
    destruct (int_of_ref _ H1) as [v [Hv Hpos]]. cbn [nth] in Hd.
    rewrite Hv in Hd. cbn [andb orb] in Hd.
    apply orb_false_iff in Hd. destruct Hd as [Hd _].
    apply Z.leb_gt in Hd. cbn in Hd. lia.
  - exfalso. rewrite HB in *.
    destruct kinds as [|[] [|[] kinds]]; try discriminate.
    destruct (conforms_cons _ _ _ Hc) as (t1 & ts & -> & H1 & Hc').
    destruct (int_of_ref _ H1) as [v [Hv Hpos]]. cbn [nth] in Hd.
    rewrite Hv in Hd. apply orb_false_iff in Hd. destruct Hd as [_ Hd].
    cbn [andb] in Hd. apply orb_false_iff in Hd. destruct Hd as [Hd _].
    apply Z.leb_gt in Hd. cbn in Hd. lia.
Qed.

(** X7.  A text that passes the combined check begins with a primitive: its
    first non-blank line has opcode C, Y, S or K, since a transform or a
    boolean operation at node 0 has nothing earlier to refer to. *)
Theorem X7_valid_program_starts_with_primitive (ir : str) :
  is_ir_valid ir = Ret (true, None) ->
  exists line rest,
    logical_lines ir = line :: rest
    /\ is_primitive (opcode line) = true.
Proof.
  intros H. destruct (is_ir_valid_returns ir) as [v [Hv [_ Hsyn]]].
  rewrite H in Hv. injection Hv as <-. specialize (Hsyn eq_refl).
  assert (Hfst : fst (validate_syntax ir) = true) by now rewrite Hsyn.
  apply validate_syntax_succeeds_iff in Hsyn. destruct Hsyn as [Hne Hok].
  destruct (logical_lines_first ir Hne) as [l [ls [Hs [Hl Hll]]]].
  exists (strip l), (nonblank_of ls). split; [exact Hll|].
  assert (Hm : matches_grammar (strip l) = true).
  { apply (in_logical_lines ir); [exact Hfst|]. rewrite Hll. now left. }
  apply first_node_primitive; [exact Hm|].
  destruct (validate_references_accepted ir Hfst)
    as [[_ Hall] | [[rest Hr] _]].
  - apply (Hall 0). now rewrite Hll.
  - unfold is_ir_valid in H.
    destruct (validate_syntax ir) as [[] e]; [|discriminate].
    rewrite Hr in H. cbn [bind negb] in H. discriminate.
Qed.

Lemma X7_witness :
  is_ir_valid (lit "C 1 1 1" ++ ["010"] ++ lit "T 0 1 2 3") = Ret (true, None)
  /\ exists line rest,
       logical_lines (lit "C 1 1 1" ++ ["010"] ++ lit "T 0 1 2 3")
       = line :: rest
       /\ is_primitive (opcode line) = true.
Proof.
  split; [reflexivity|].
  apply (X7_valid_program_starts_with_primitive
           (lit "C 1 1 1" ++ ["010"] ++ lit "T 0 1 2 3")).
  reflexivity.
Defined.

(** ** The first dangling line *)

Lemma check_parts_message (line : str) (n : nat) :
  matches_grammar line = true ->
  check_parts (split_ws line) n
  = Ret (if dangling n line
         then Some (false, Some (dangling_message n line))
         else None).
Proof.
  intros H. destruct (matches_ref_shape _ H)
    as [HT HB [op [tokens Hs]]
       | op t1 ts v Hs HT HB H1 Hv
       | op t1 t2 ts v1 v2 Hs HT HB H1 Hv1 H2 Hv2].
  - unfold dangling. rewrite HT, HB. cbn [andb orb].
    unfold opcode in HT, HB. rewrite Hs in *. cbn [nth] in HT, HB.
    unfold check_parts. now rewrite HT, HB.
  - unfold dangling, dangling_message, operand_ge, int_value, operand, opcode.
    rewrite Hs. cbn [nth]. rewrite HT, HB, Hv.
    unfold check_parts. rewrite HT. cbn [List.length Nat.leb nth].
    rewrite Hv. cbn [bind andb orb].
    now destruct (Z.of_nat n <=? v)%Z.
  - unfold dangling, dangling_message, operand_ge, int_value, operand, opcode.
    rewrite Hs. cbn [nth]. rewrite HT, HB, Hv1, Hv2.
    unfold check_parts. rewrite HT, HB.
    cbn [List.length Nat.leb nth]. rewrite Hv1, Hv2. cbn [bind andb orb].
    now destruct ((Z.of_nat n <=? v1)%Z || (Z.of_nat n <=? v2)%Z).
Qed.

Lemma references_loop_first_dangling (lines : list str) :
  forallb (line_ok COMPACT_IR_PATTERNS) lines = true ->
  forall n pre line post,
  nonblank_of lines = pre ++ line :: post ->
  (forall k l, nth_error pre k = Some l -> dangling (n + k) l = false) ->
  dangling (n + List.length pre) line = true ->
  references_loop lines n
  = Ret (false, Some (dangling_message (n + List.length pre) line)).
Proof.
  induction lines as [|l lines IH]; intros Hok n pre line post Hnb Hpre Hd.
  - destruct pre; discriminate.
  - cbn [forallb] in Hok. apply andb_true_iff in Hok. destruct Hok as [Hl Hok].
    rewrite nonblank_of_cons in Hnb. cbn [references_loop].
    unfold line_ok in Hl. unfold is_blank in *.
    destruct (is_empty (strip l)) eqn:E.
    + now apply (IH Hok n pre line post).
    + cbn [orb] in Hl. fold (matches_grammar (strip l)) in Hl.
      rewrite (check_parts_message _ n Hl).
      destruct pre as [|p pre].
      * cbn [app] in Hnb. injection Hnb as -> _.
        cbn [List.length] in *. rewrite Nat.add_0_r in *. now rewrite Hd.
      * cbn [app] in Hnb. injection Hnb as -> Hnb.
        pose proof (Hpre 0 _ eq_refl) as H0. rewrite Nat.add_0_r in H0.
        rewrite H0. cbn [List.length] in *.
        rewrite Nat.add_succ_r in *.
        apply (IH Hok (S n) pre line post Hnb); [|exact Hd].
        intros k l' Hk. specialize (Hpre (S k) l' Hk).
        now rewrite Nat.add_succ_r in Hpre.
Qed.



Example dangling_message_examples :
  dangling_message 1 (lit "U 0 7") = lit "Invalid references 0, 7 at node 1"
  /\ dangling_message 2 (lit "SC 5 1 1 1") = lit "Invalid reference 5 at node 2".
Proof. split; reflexivity. Qed.

(* ================================================================= *)
(** * Further properties of the aggregation *)

(** ** The error histogram *)

Lemma str_eqb_sym (a b : str) : str_eqb a b = str_eqb b a.
Proof.
  destruct (str_eqb a b) eqn:E.
  - apply str_eqb_eq in E. subst. symmetry. apply str_eqb_refl.
  - destruct (str_eqb b a) eqn:E'; [|reflexivity].
    apply str_eqb_eq in E'. subst. now rewrite str_eqb_refl in E.
Qed.

Lemma dict_get_set (d : list (str * nat)) (key key' : str) (v default : nat) :
  dict_get (dict_set d key v) key' default
  = if str_eqb key key' then v else dict_get d key' default.
Proof.
  induction d as [|[k w] d IH]; cbn [dict_set dict_get].
  - reflexivity.
  - destruct (str_eqb k key) eqn:E; cbn [dict_get].
    + apply str_eqb_eq in E. subst k. now destruct (str_eqb key key').
    + destruct (str_eqb k key') eqn:E'; [|exact IH].
      apply str_eqb_eq in E'. subst k. now rewrite str_eqb_sym, E.
Qed.

Lemma dict_set_keys (d : list (str * nat)) (key : str) (v : nat) :
  map fst (dict_set d key v)
  = if existsb (str_eqb key) (map fst d) then map fst d
    else map fst d ++ [key].
Proof.
  induction d as [|[k w] d IH]; cbn [dict_set map fst existsb app];
    [reflexivity|].
  rewrite (str_eqb_sym key k). destruct (str_eqb k key); cbn [map fst orb].
  - reflexivity.
  - rewrite IH. now destruct (existsb (str_eqb key) (map fst d)).
Qed.

Lemma existsb_str_eqb_false (key : str) (keys : list str) :
  existsb (str_eqb key) keys = false -> ~ In key keys.
Proof.
  intros H Hin. assert (existsb (str_eqb key) keys = true).
  { apply existsb_exists. exists key. split; [exact Hin | apply str_eqb_refl]. }
  congruence.
Qed.

Lemma dict_set_nodup (d : list (str * nat)) (key : str) (v : nat) :
  NoDup (map fst d) -> NoDup (map fst (dict_set d key v)).
Proof.
  intros H. rewrite dict_set_keys.
  destruct (existsb (str_eqb key) (map fst d)) eqn:E; [exact H|].
  apply NoDup_app; [exact H | repeat constructor; intros [] |].
  intros k Hk [<- | []]. exact (existsb_str_eqb_false _ _ E Hk).
Qed.

Lemma dict_sum_bump (d : list (str * nat)) (key : str) :
  dict_sum (dict_set d key (dict_get d key 0 + 1)) = dict_sum d + 1.
Proof.
  induction d as [|[k w] d IH]; cbn [dict_set dict_get dict_sum fold_right snd].
  - reflexivity.
  - destruct (str_eqb k key); cbn [dict_sum fold_right snd].
    + fold (dict_sum d). lia.
    + fold (dict_sum (dict_set d key (dict_get d key 0 + 1))).
      fold (dict_sum d). rewrite IH. lia.
Qed.

Lemma dict_get_positive (d : list (str * nat)) :
  (forall k v, In (k, v) d -> 0 < v) ->
  forall key v, 0 < v -> forall k w, In (k, w) (dict_set d key v) -> 0 < w.
Proof.
  induction d as [|[k0 w0] d IH]; intros Hd key v Hv k w Hin;
    cbn [dict_set] in Hin.
  - destruct Hin as [Hin | []]. now injection Hin as _ <-.
  - destruct (str_eqb k0 key).
    + destruct Hin as [Hin | Hin]; [now injection Hin as _ <-|].
      apply (Hd k w). now right.
    + destruct Hin as [Hin | Hin].
      * apply (Hd k w). now left.
      * apply (IH (fun k v H => Hd k v (or_intror H)) key v Hv k w Hin).
Qed.

(** The histogram after the loop, from the histogram before it. *)
Lemma record_errors (results : list EvalMetrics.t) :
  forall errors,
  NoDup (map fst errors) ->
  (forall k v, In (k, v) errors -> 0 < v) ->
  let errors' := fold_left record_error results errors in
  NoDup (map fst errors')
  /\ (forall k v, In (k, v) errors' -> 0 < v)
  /\ dict_sum errors' = dict_sum errors + count has_error results
  /\ (forall key,
        dict_get errors' key 0
        = dict_get errors key 0 + count (has_error_key key) results).
Proof.
  induction results as [|r results IH]; intros errors Hnd Hpos.
  - cbn [fold_left]. unfold count. cbn [fold_left].
    repeat split; auto.
  - cbn [fold_left].
    assert (Hstep :
      NoDup (map fst (record_error errors r))
      /\ (forall k v, In (k, v) (record_error errors r) -> 0 < v)
      /\ dict_sum (record_error errors r)
         = dict_sum errors + (if has_error r then 1 else 0)
      /\ (forall key,
            dict_get (record_error errors r) key 0
            = dict_get errors key 0 + (if has_error_key key r then 1 else 0))).
    { unfold record_error, has_error, has_error_key.
      destruct (EvalMetrics.error_message r) as [msg|].
      - destruct (is_empty msg); cbn [negb andb].
        + repeat split; auto; intros; lia.
        + split; [now apply dict_set_nodup|].
          split; [apply dict_get_positive; [exact Hpos | lia]|].
          split; [apply dict_sum_bump|].
          intros key. rewrite dict_get_set.
          destruct (str_eqb (error_type msg) key) eqn:E; [|lia].
          apply str_eqb_eq in E. now subst key.
      - repeat split; auto; intros; lia. }
    destruct Hstep as (Hnd' & Hpos' & Hsum' & Hget').
    destruct (IH _ Hnd' Hpos') as (H1 & H2 & H3 & H4).
    split; [exact H1|]. split; [exact H2|]. split.
    + rewrite H3, Hsum', !count_filter. cbn [filter].
      destruct (has_error r); cbn [List.length]; lia.
    + intros key. rewrite H4, Hget', !count_filter. cbn [filter].
      destruct (has_error_key key r); cbn [List.length]; lia.
Qed.

(** X9.  The error histogram of the aggregation has each key once and only
    positive counts; the count under a key is the number of examples whose
    message (present and not empty) has that key, an absent key standing
    for zero; and the counts add up to the number of examples that carry
    such a message. *)
Theorem X9_error_histogram (results : list EvalMetrics.t) :
  let errors := AggregateMetrics.errors (aggregate results) in
  NoDup (map fst errors)
  /\ (forall k v, In (k, v) errors -> 0 < v)
  /\ (forall key,
        dict_get errors key 0 = count (has_error_key key) results)
  /\ dict_sum errors = count has_error results.
Proof.
  unfold aggregate. cbn [AggregateMetrics.errors].
  destruct (record_errors results [] (NoDup_nil _))
    as (H1 & H2 & H3 & H4); [intros k v []|].
  split; [exact H1|]. split; [exact H2|]. split.
  - intros key. now rewrite H4.
  - now rewrite H3.
Qed.

(** ** evaluate_model *)

Lemma count_le {A : Type} (p : A -> bool) (l : list A) :
  count p l <= List.length l.
Proof. rewrite count_filter. apply filter_length_le. Qed.

Lemma count_split {A : Type} (p q : A -> bool) (l : list A) :
  Forall (fun x => p x = negb (q x)) l ->
  count p l + count q l = List.length l.
Proof.
  rewrite !count_filter. induction 1 as [|x l Hx _ IH]; [reflexivity|].
  cbn [filter List.length]. rewrite Hx. destruct (q x); cbn [negb List.length];
    lia.
Qed.

Lemma count_same {A : Type} (p q : A -> bool) (l : list A) :
  Forall (fun x => p x = q x) l -> count p l = count q l.
Proof.
  rewrite !count_filter. induction 1 as [|x l Hx _ IH]; [reflexivity|].
  cbn [filter]. rewrite Hx. destruct (q x); cbn [List.length]; now rewrite IH.
Qed.

Lemma count_none {A : Type} (p : A -> bool) (l : list A) :
  Forall (fun x => p x = false) l -> count p l = 0.
Proof.
  rewrite count_filter. induction 1 as [|x l Hx _ IH]; [reflexivity|].
  cbn [filter]. now rewrite Hx.
Qed.

Lemma evaluate_single_coherent (Engine : Type) (generated_ir example_ir : str)
  (validate_geometry : bool) (engine : option Engine) :
  exists m,
    evaluate_single generated_ir example_ir validate_geometry engine = Ret m
    /\ coherent validate_geometry (is_some engine) m.
Proof.
  unfold evaluate_single.
  destruct (is_ir_valid_returns generated_ir) as [[sv se] [-> [Hwf _]]].
  cbn [bind]. eexists. split; [reflexivity|].
  unfold coherent, has_error.
  cbn [EvalMetrics.syntax_valid EvalMetrics.error_message
       EvalMetrics.geometry_valid].
  destruct Hwf as [Hv | [msg [Hv Hmsg]]]; injection Hv as -> ->.
  - repeat split; try discriminate; now destruct engine.
  - rewrite Hmsg. repeat split; try discriminate; now destruct engine.
Qed.

Lemma evaluate_all_coherent (Engine : Type) (samples : list (str * str))
  (validate_geometry : bool) (engine : option Engine) :
  exists results,
    evaluate_all samples validate_geometry engine = Ret results
    /\ List.length results = List.length samples
    /\ Forall (coherent validate_geometry (is_some engine)) results.
Proof.
  induction samples as [|[g e] samples IH]; cbn [evaluate_all].
  - exists []. repeat split. constructor.
  - destruct (evaluate_single_coherent Engine g e validate_geometry engine)
      as [m [-> Hm]].
    destruct IH as [results [-> [Hlen Hall]]]. cbn [bind].
    exists (m :: results). split; [reflexivity|]. split.
    + cbn [List.length]. now rewrite Hlen.
    + now constructor.
Qed.


(** X11.  Without an engine, or with geometry validation switched off, no
    example counts as geometry-valid; with both, the placeholder counts
    every syntactically valid example, so the geometry count and accuracy
    are those of the syntax. *)
Theorem X11_geometry_placeholder (Engine : Type) (dataset : list (str * str))
  (validate_geometry : bool) (engine : option Engine)
  (max_samples : option nat) (a : AggregateMetrics.t) :
  evaluate_model dataset validate_geometry engine max_samples = Ret a ->
  (validate_geometry && is_some engine = false ->
   AggregateMetrics.geometry_valid a = 0
   /\ (AggregateMetrics.geometry_accuracy a == 0)%Q)
  /\ (validate_geometry && is_some engine = true ->
      AggregateMetrics.geometry_valid a = AggregateMetrics.syntax_valid a
      /\ AggregateMetrics.geometry_accuracy a
         = AggregateMetrics.syntax_accuracy a).
Proof.
  unfold evaluate_model.
  set (samples := match max_samples with
                  | Some n => firstn (Nat.min n (List.length dataset)) dataset
                  | None => dataset
                  end).
  destruct (evaluate_all_coherent Engine samples validate_geometry engine)
    as [results [-> [_ Hall]]].
  cbn [bind]. intros H. injection H as <-. unfold aggregate.
  cbn [AggregateMetrics.total AggregateMetrics.syntax_valid
       AggregateMetrics.geometry_valid AggregateMetrics.geometry_accuracy
       AggregateMetrics.syntax_accuracy].
  split; intros Hg.
  - assert (H0 : count (fun r => is_True (EvalMetrics.geometry_valid r)) results
                 = 0).
    { apply count_none. revert Hall. apply Forall_impl.
      intros m (_ & _ & ->).
      destruct validate_geometry, (EvalMetrics.syntax_valid m), (is_some engine);
        try reflexivity; discriminate. }
    rewrite H0. split; [reflexivity|].
    destruct (List.length results); cbn [Nat.ltb Nat.leb]; reflexivity.
  - assert (H1 : count (fun r => is_True (EvalMetrics.geometry_valid r)) results
                 = count EvalMetrics.syntax_valid results).
    { apply count_same. revert Hall. apply Forall_impl.
      intros m (_ & _ & ->). apply andb_true_iff in Hg. destruct Hg as [-> ->].
      now destruct (EvalMetrics.syntax_valid m). }
    now rewrite H1.
Qed.

Lemma X11_witness :
  let dataset := [(lit "S 1", lit "S 1"); (lit "oops", lit "S 2")] in
  exists a,
    evaluate_model dataset true (Some tt) None = Ret a
    /\ AggregateMetrics.geometry_valid a = AggregateMetrics.syntax_valid a
    /\ AggregateMetrics.geometry_accuracy a
       = AggregateMetrics.syntax_accuracy a.
Proof.
  eexists. split; [reflexivity|].
  apply (X11_geometry_placeholder unit
           [(lit "S 1", lit "S 1"); (lit "oops", lit "S 2")]
           true (Some tt) None); reflexivity.
Defined.

(** ** Accuracies *)

Lemma true_div_bounds (a b : nat) :
  a <= b -> 0 < b -> (0 <= true_div a b)%Q /\ (true_div a b <= 1)%Q.
Proof.
  intros Hab Hb. unfold true_div, Qle. cbn [Qnum Qden].
  assert (Hp : Z.pos (Pos.of_nat b) = Z.of_nat b).
  { destruct b; [lia|]. rewrite <- Pos.of_nat_succ, Zpos_P_of_succ_nat. lia. }
  rewrite Hp. lia.
Qed.

(** X12.  [compute_metrics] returns, under its three keys, the accuracies
    that the aggregation of [evaluate_model] computes for the same results,
    the empty list included; each is the count over the total, and lies
    between 0 and 1. *)
Theorem X12_compute_metrics_agrees (results : list EvalMetrics.t) :
  compute_metrics results
  = [ (lit "syntax_accuracy",
       AggregateMetrics.syntax_accuracy (aggregate results));
      (lit "geometry_accuracy",
       AggregateMetrics.geometry_accuracy (aggregate results));
      (lit "exact_match_accuracy",
       AggregateMetrics.exact_match_accuracy (aggregate results)) ]
  /\ Forall (fun kv => (0 <= snd kv)%Q /\ (snd kv <= 1)%Q)
       (compute_metrics results).
Proof.
  unfold compute_metrics, aggregate.
  cbn [AggregateMetrics.syntax_accuracy AggregateMetrics.geometry_accuracy
       AggregateMetrics.exact_match_accuracy].
  destruct results as [|r results].
  - split; [reflexivity|]. repeat constructor; cbn; discriminate.
  - set (l := r :: results).
    assert (Hl : 0 < List.length l) by (cbn; lia).
    change (List.length (r :: results)) with (List.length l).
    destruct (List.length l =? 0) eqn:E; [apply Nat.eqb_eq in E; lia|].
    destruct (0 <? List.length l) eqn:E'; [|apply Nat.ltb_ge in E'; lia].
    split; [reflexivity|].
    repeat constructor; cbn [snd];
      apply true_div_bounds; auto using count_le.
Qed.

(* ================================================================= *)
(** * The IR part of a generation *)

Example ir_of_generated_examples :
  ir_of_generated (full_prompt (lit "a cube") ++ lit "C 1 1 1" ++ ["010"]
                   ++ lit "S 2" ++ ["010"; "010"] ++ lit "Note: done")
  = Ret (lit "C 1 1 1" ++ ["010"] ++ lit "S 2")
  /\ ir_of_generated (lit "no marker here") = Ret (lit "no marker here")
  /\ sample_of_generated (lit "no marker here") = Ret None
  /\ ir_of_generated (lit "Compact IR: S 1 " ++ ["010"; "010"] ++ lit "x")
     = Ret (lit "S 1 ").
Proof. repeat split; reflexivity. Qed.

Lemma starts_with_nil (p : str) : starts_with p [] = is_empty p.
Proof. now destruct p. Qed.

Lemma starts_with_app (p s t : str) :
  starts_with p s = true -> starts_with p (s ++ t) = true.
Proof.
  revert s. induction p as [|c p IH]; intros [|d s] H; cbn in *;
    try reflexivity; try discriminate.
  apply andb_true_iff in H. destruct H as [-> H]. now rewrite (IH _ H).
Qed.

Lemma starts_with_self (p t : str) : starts_with p (p ++ t) = true.
Proof.
  induction p as [|c p IH]; [reflexivity|]. cbn.
  now rewrite Ascii.eqb_refl, IH.
Qed.

Lemma before_prefix (sep s : str) : exists rest, s = before sep s ++ rest.
Proof.
  induction s as [|c s [rest IH]]; [now exists []|]. cbn [before].
  destruct (starts_with sep (c :: s)).
  - now exists (c :: s).
  - exists rest. cbn [app]. now rewrite <- IH.
Qed.

(** The text before the first occurrence has no occurrence. *)
Lemma before_free (sep s : str) :
  is_empty sep = false -> contains sep (before sep s) = false.
Proof.
  intros Hsep. induction s as [|c s IH]; cbn [before].
  - cbn [contains]. now rewrite starts_with_nil.
  - destruct (starts_with sep (c :: s)) eqn:E.
    + cbn [contains]. now rewrite starts_with_nil.
    + cbn [contains]. rewrite IH, orb_false_r.
      destruct (starts_with sep (c :: before sep s)) eqn:E'; [|reflexivity].
      destruct (before_prefix sep s) as [rest Hrest].
      apply (starts_with_app _ _ rest) in E'. cbn [app] in E'.
      rewrite <- Hrest in E'. congruence.
Qed.

Lemma before_none (sep s : str) : contains sep s = false -> before sep s = s.
Proof.
  induction s as [|c s IH]; [reflexivity|]. cbn [contains before].
  intros H. apply orb_false_iff in H. destruct H as [-> H]. now rewrite IH.
Qed.

Lemma split_from_first (sep s : str) : forall cur,
  nth 0 (split_from sep 0 cur s) [] = cur ++ before sep s.
Proof.
  induction s as [|c s IH]; intros cur; cbn [split_from before].
  - now rewrite app_nil_r.
  - destruct (starts_with sep (c :: s)); cbn [nth].
    + now rewrite app_nil_r.
    + now rewrite IH, <- app_assoc.
Qed.

Lemma split_from_none (sep s : str) : forall cur,
  contains sep s = false -> split_from sep 0 cur s = [cur ++ s].
Proof.
  induction s as [|c s IH]; intros cur H; cbn [split_from].
  - now rewrite app_nil_r.
  - cbn [contains] in H. apply orb_false_iff in H. destruct H as [-> H].
    now rewrite (IH _ H), <- app_assoc.
Qed.

Lemma split_from_skip (sep x rest cur : str) :
  split_from sep (List.length x) cur (x ++ rest) = split_from sep 0 cur rest.
Proof. induction x as [|c x IH]; [reflexivity | exact IH]. Qed.

Lemma split_from_cons (sep : str) (skip : nat) (cur s : str) :
  exists piece pieces, split_from sep skip cur s = piece :: pieces.
Proof.
  revert skip cur. induction s as [|c s IH]; intros skip cur;
    cbn [split_from]; [eauto|].
  destruct skip; [|apply IH]. destruct (starts_with sep (c :: s)); eauto.
Qed.

Lemma last_cons {A : Type} (x y : A) (l : list A) (d : A) :
  last (x :: y :: l) d = last (y :: l) d.
Proof. reflexivity. Qed.

(** An occurrence of the marker cannot begin before another one and run
    into it: no proper suffix of the marker is a prefix of it. *)
Lemma marker_no_overlap (a b : str) :
  starts_with MARKER (a ++ MARKER ++ b) = true ->
  a = [] \/ List.length MARKER <= List.length a.
Proof.
  intros H.
  destruct a as [|c0 [|c1 [|c2 [|c3 [|c4 [|c5 [|c6 [|c7 [|c8 [|c9 [|c10 a]]]]]]]]]]];
    [now left | .. | right; cbn; lia];
    exfalso; cbn in H; rewrite ?andb_false_r in H; discriminate.
Qed.

(** The last piece of a text is what follows its last marker. *)
Lemma split_marker_last (b : str) :
  contains MARKER b = false ->
  forall a skip cur,
  skip <= List.length a ->
  last (split_from MARKER skip cur (a ++ MARKER ++ b)) [] = b.
Proof.
  intros Hb. induction a as [|x a IH]; intros skip cur Hskip.
  - cbn [List.length] in Hskip. assert (skip = 0) by lia. subst skip.
    cbn [app]. change (MARKER ++ b) with ("C" :: lit "ompact IR:" ++ b).
    cbn [split_from].
    change ("C" :: lit "ompact IR:" ++ b) with (MARKER ++ b).
    rewrite starts_with_self.
    change (List.length MARKER - 1) with (List.length (lit "ompact IR:")).
    rewrite split_from_skip, (split_from_none _ _ _ Hb). reflexivity.
  - cbn [app split_from]. destruct skip as [|k].
    + destruct (starts_with MARKER (x :: a ++ MARKER ++ b)) eqn:E.
      * destruct (marker_no_overlap (x :: a) b E) as [Hnil | Hlen];
          [discriminate|].
        destruct (split_from_cons MARKER (List.length MARKER - 1) []
                    (a ++ MARKER ++ b)) as [p [ps Hp]].
        rewrite Hp, last_cons, <- Hp. apply IH.
        cbn [List.length] in Hlen. lia.
      * apply IH. lia.
    + apply IH. cbn [List.length] in Hskip. lia.
Qed.

Lemma contains_cons_false (needle : str) (c : ascii) (s : str) :
  starts_with needle (c :: s) = false ->
  contains needle s = false -> contains needle (c :: s) = false.
Proof. intros H1 H2. cbn [contains]. now rewrite H1, H2. Qed.

Lemma contains_app_marker (a b : str) : contains MARKER (a ++ MARKER ++ b) = true.
Proof.
  induction a as [|x a IH].
  - cbn [app]. change (MARKER ++ b) with ("C" :: lit "ompact IR:" ++ b).
    cbn [contains]. change ("C" :: lit "ompact IR:" ++ b) with (MARKER ++ b).
    now rewrite starts_with_self.
  - cbn [app contains]. rewrite IH. apply orb_true_r.
Qed.

(** What the two functions make of the last piece. *)
Lemma first_paragraph (ir : str) :
  (if contains BLANK_LINE ir
   then paragraphs <- split_str BLANK_LINE ir ;; Ret (nth 0 paragraphs [])
   else Ret ir)
  = Ret (before BLANK_LINE ir).
Proof.
  destruct (contains BLANK_LINE ir) eqn:E.
  - cbn [split_str BLANK_LINE bind]. now rewrite split_from_first.
  - now rewrite (before_none _ _ E).
Qed.

Lemma ir_of_generated_marker (a b : str) :
  contains MARKER b = false ->
  ir_of_generated (a ++ MARKER ++ b) = Ret (before BLANK_LINE (strip b))
  /\ sample_of_generated (a ++ MARKER ++ b) = Ret (Some (strip b)).
Proof.
  intros Hb. unfold ir_of_generated, sample_of_generated.
  rewrite contains_app_marker.
  change (split_str MARKER (a ++ MARKER ++ b))
    with (Ret (A := list str) (split_from MARKER 0 [] (a ++ MARKER ++ b))).
  cbn [bind]. rewrite (split_marker_last b Hb a 0 []); [|lia].
  split; [apply first_paragraph | reflexivity].
Qed.

(** X13.  The IR of a decoded text is read after its last marker: if
    nothing after a "Compact IR:" contains the marker again, then whatever
    stands before it, [generate_completion] returns the stripped rest up to
    its first blank line and [generate_sample] returns the whole stripped
    rest.  So for a decoded text that is the full prompt followed by a
    completion without the marker, the result depends on the completion
    alone, even if the design description itself contains the marker. *)
Theorem X13_ir_follows_last_marker (a b : str) :
  contains MARKER b = false ->
  (ir_of_generated (a ++ MARKER ++ b) = Ret (before BLANK_LINE (strip b))
   /\ sample_of_generated (a ++ MARKER ++ b) = Ret (Some (strip b)))
  /\ (forall prompt,
        ir_of_generated (full_prompt prompt ++ b)
        = Ret (before BLANK_LINE (strip b))
        /\ sample_of_generated (full_prompt prompt ++ b)
           = Ret (Some (strip b))).
Proof.
  intros Hb. split; [now apply ir_of_generated_marker|].
  intros prompt.
  assert (Hs : strip ("010" :: b) = strip b).
  { unfold strip. change ("010" :: b) with (["010"] ++ b).
    now rewrite lstrip_pad. }
  assert (Hc : contains MARKER ("010" :: b) = false).
  { now apply contains_cons_false. }
  destruct (ir_of_generated_marker
              (lit "Design: " ++ prompt ++ ["010"; "010"]) ("010" :: b) Hc)
    as [H1 H2].
  rewrite Hs in H1, H2.
  assert (He : full_prompt prompt ++ b
               = (lit "Design: " ++ prompt ++ ["010"; "010"])
                 ++ MARKER ++ "010" :: b).
  { unfold full_prompt, MARKER. now rewrite <- !app_assoc. }
  rewrite He. now split.
Qed.

Lemma X13_witness :
  contains MARKER (lit " S 1" ++ ["010"; "010"] ++ lit "rest") = false
  /\ ((ir_of_generated
         (lit "x" ++ MARKER ++ lit " S 1" ++ ["010"; "010"] ++ lit "rest")
       = Ret (before BLANK_LINE
                (strip (lit " S 1" ++ ["010"; "010"] ++ lit "rest")))
       /\ sample_of_generated
            (lit "x" ++ MARKER ++ lit " S 1" ++ ["010"; "010"] ++ lit "rest")
          = Ret (Some (strip (lit " S 1" ++ ["010"; "010"] ++ lit "rest"))))
      /\ (forall prompt,
            ir_of_generated
              (full_prompt prompt ++ lit " S 1" ++ ["010"; "010"] ++ lit "rest")
            = Ret (before BLANK_LINE
                     (strip (lit " S 1" ++ ["010"; "010"] ++ lit "rest")))
            /\ sample_of_generated
                 (full_prompt prompt
                  ++ lit " S 1" ++ ["010"; "010"] ++ lit "rest")
               = Ret (Some
                        (strip (lit " S 1" ++ ["010"; "010"] ++ lit "rest"))))).
Proof.
  split; [reflexivity|].
  apply (X13_ir_follows_last_marker (lit "x")
           (lit " S 1" ++ ["010"; "010"] ++ lit "rest")).
  reflexivity.
Defined.


(* ================================================================= *)
(** * The printed report *)

Lemma insert_by_count_perm (kv : str * nat) (l : list (str * nat)) :
  Permutation (kv :: l) (insert_by_count kv l).
Proof.
  induction l as [|kv' l IH]; cbn [insert_by_count]; [reflexivity|].
  destruct (snd kv <? snd kv'); [|reflexivity].
  rewrite perm_swap. now constructor.
Qed.

Lemma sorted_by_count_perm (l : list (str * nat)) :
  Permutation l (sorted_by_count l).
Proof.
  induction l as [|kv l IH]; [reflexivity|]. cbn [sorted_by_count fold_right].
  rewrite <- insert_by_count_perm. now constructor.
Qed.

Lemma insert_by_count_sorted (kv : str * nat) (l : list (str * nat)) :
  StronglySorted count_ge l -> StronglySorted count_ge (insert_by_count kv l).
Proof.
  induction 1 as [|kv' l Hl IH Hall]; cbn [insert_by_count].
  - repeat constructor.
  - destruct (snd kv <? snd kv') eqn:E.
    + apply Nat.ltb_lt in E. constructor; [exact IH|].
      apply (Permutation_Forall (insert_by_count_perm kv l)).
      constructor; [unfold count_ge; lia | exact Hall].
    + apply Nat.ltb_ge in E. constructor; [now constructor|].
      constructor; [exact E|].
      revert Hall. apply Forall_impl. unfold count_ge. intros; lia.
Qed.

Lemma insert_by_count_stable (c : nat) (kv : str * nat)
  (l : list (str * nat)) :
  filter (fun x => snd x =? c) (insert_by_count kv l)
  = filter (fun x => snd x =? c) (kv :: l).
Proof.
  induction l as [|kv' l IH]; cbn [insert_by_count]; [reflexivity|].
  destruct (snd kv <? snd kv') eqn:E; [|reflexivity].
  apply Nat.ltb_lt in E. cbn [filter] in *. rewrite IH.
  destruct (snd kv =? c) eqn:E1; [|reflexivity].
  destruct (snd kv' =? c) eqn:E2; [|reflexivity].
  apply Nat.eqb_eq in E1, E2. lia.
Qed.


Example report_order :
  sorted_by_count [(lit "a", 1); (lit "b", 3); (lit "c", 1); (lit "d", 3)]
  = [(lit "b", 3); (lit "d", 3); (lit "a", 1); (lit "c", 1)].
Proof. reflexivity. Qed.

(* ================================================================= *)
(** * Loading and analysing the data *)

(** X16.  [load_dataset] keeps a prefix of each file in every case.  For a
    limit [n >= 0] the training set has [min(n, len)] rows and the
    validation set [min(n // 10, len)], so that a limit below ten leaves
    the validation set empty; a negative limit drops rows from the end
    instead, [-n] of the training rows and [-(n // 10)] of the validation
    rows. *)
Theorem X16_load_dataset_sizes (A : Type) (train_data val_data : list A)
  (n : Z) :
  let train := fst (load_dataset train_data val_data (Some n)) in
  let val := snd (load_dataset train_data val_data (Some n)) in
  (train = firstn (List.length train) train_data
   /\ val = firstn (List.length val) val_data)
  /\ ((0 <= n)%Z ->
      List.length train = Nat.min (Z.to_nat n) (List.length train_data)
      /\ List.length val
         = Nat.min (Z.to_nat (n / 10)) (List.length val_data))
  /\ ((0 <= n < 10)%Z -> val = [])
  /\ ((n < 0)%Z ->
      List.length train = List.length train_data - Z.to_nat (- n)
      /\ List.length val = List.length val_data - Z.to_nat (- (n / 10))).
Proof.
  cbn zeta. unfold load_dataset, slice_to. cbn [fst snd].
  assert (Hfirst : forall k (l : list A),
            firstn k l = firstn (List.length (firstn k l)) l).
  { intros k l. rewrite length_firstn.
    destruct (Nat.le_ge_cases k (List.length l)) as [H | H].
    - now rewrite Nat.min_l.
    - rewrite Nat.min_r by exact H. now rewrite !firstn_all2. }
  split; [|split; [|split]].
  - destruct (0 <=? n)%Z, (0 <=? n / 10)%Z; split; apply Hfirst.
  - intros Hn.
    assert (Hd : (0 <= n / 10)%Z) by (apply Z.div_pos; lia).
    apply Z.leb_le in Hn, Hd. rewrite Hn, Hd, !length_firstn. split; reflexivity.
  - intros Hn. rewrite (Z.div_small n 10 Hn). reflexivity.
  - intros Hn.
    assert (Hd : (n / 10 < 0)%Z) by (apply Z.div_lt_upper_bound; lia).
    apply Z.leb_gt in Hn as Hn', Hd as Hd'. rewrite Hn', Hd', !length_firstn.
    split; lia.
Qed.

Example load_dataset_examples :
  load_dataset [1; 2; 3; 4; 5] [6; 7; 8] (Some 25%Z) = ([1; 2; 3; 4; 5], [6; 7])
  /\ load_dataset [1; 2; 3; 4; 5] [6; 7; 8] (Some 9%Z) = ([1; 2; 3; 4; 5], [])
  /\ load_dataset [1; 2; 3; 4; 5] [6; 7; 8] (Some (-1)%Z)
     = ([1; 2; 3; 4], [6; 7])
  /\ load_dataset [1; 2; 3; 4; 5] [6; 7; 8] None = ([1; 2; 3; 4; 5], [6; 7; 8]).
Proof. repeat split; reflexivity. Qed.

(** ** Counters *)

Section CounterFacts.

Variable K : Type.
Variable eqb : K -> K -> bool.
Hypothesis eqb_eq : forall a b, eqb a b = true <-> a = b.

Lemma counter_eqb_refl (a : K) : eqb a a = true.
Proof. now apply eqb_eq. Qed.

Lemma counter_get_set (d : list (K * nat)) (key key' : K) (v default : nat) :
  counter_get eqb (counter_set eqb d key v) key' default
  = if eqb key key' then v else counter_get eqb d key' default.
Proof.
  induction d as [|[k w] d IH]; cbn [counter_set counter_get].
  - reflexivity.
  - destruct (eqb k key) eqn:E; cbn [counter_get].
    + apply eqb_eq in E. subst k. now destruct (eqb key key').
    + destruct (eqb k key') eqn:E'; [|exact IH].
      apply eqb_eq in E'. subst k.
      destruct (eqb key key') eqn:E''; [|reflexivity].
      apply eqb_eq in E''. subst key'. now rewrite counter_eqb_refl in E.
Qed.

Lemma counter_set_keys (d : list (K * nat)) (key : K) (v : nat) :
  map fst (counter_set eqb d key v) = map fst d
  \/ (~ In key (map fst d)
      /\ map fst (counter_set eqb d key v) = map fst d ++ [key]).
Proof.
  induction d as [|[k w] d IH]; cbn [counter_set map fst app].
  - right. split; [intros [] | reflexivity].
  - destruct (eqb k key) eqn:E; cbn [map fst]; [now left|].
    destruct IH as [-> | [Hnin ->]]; [now left|].
    right. split; [|reflexivity]. intros [<- | H]; [|now apply Hnin].
    now rewrite counter_eqb_refl in E.
Qed.

Lemma counter_set_nodup (d : list (K * nat)) (key : K) (v : nat) :
  NoDup (map fst d) -> NoDup (map fst (counter_set eqb d key v)).
Proof.
  intros H. destruct (counter_set_keys d key v) as [-> | [Hnin ->]];
    [exact H|].
  apply NoDup_app; [exact H | repeat constructor; intros [] |].
  intros k Hk [<- | []]. now apply Hnin.
Qed.

Lemma counter_sum_bump (d : list (K * nat)) (key : K) :
  counter_sum (counter_bump eqb d key) = counter_sum d + 1.
Proof.
  unfold counter_bump.
  induction d as [|[k w] d IH];
    cbn [counter_set counter_get counter_sum fold_right snd].
  - reflexivity.
  - destruct (eqb k key); cbn [counter_sum fold_right snd].
    + fold (counter_sum d). lia.
    + fold (counter_sum (counter_set eqb d key (counter_get eqb d key 0 + 1))).
      fold (counter_sum d). rewrite IH. lia.
Qed.

(** Counting the keys that [key_of] gives to the rows. *)
Lemma counter_fold (R : Type) (key_of : R -> K) (rows : list R) :
  forall d,
  NoDup (map fst d) ->
  let d' := fold_left (fun d r => counter_bump eqb d (key_of r)) rows d in
  NoDup (map fst d')
  /\ counter_sum d' = counter_sum d + List.length rows
  /\ (forall key,
        counter_get eqb d' key 0
        = counter_get eqb d key 0
          + List.length (filter (fun r => eqb (key_of r) key) rows)).
Proof.
  induction rows as [|r rows IH]; intros d Hd; cbn [fold_left].
  - cbn [List.length filter]. repeat split; auto; intros; lia.
  - destruct (IH (counter_bump eqb d (key_of r))) as (H1 & H2 & H3).
    { now apply counter_set_nodup. }
    split; [exact H1|]. split.
    + rewrite H2, counter_sum_bump. cbn [List.length]. lia.
    + intros key. rewrite H3. unfold counter_bump at 1.
      rewrite counter_get_set. cbn [filter].
      destruct (eqb (key_of r) key) eqn:E; cbn [List.length]; [|lia].
      apply eqb_eq in E. subst key. lia.
Qed.

End CounterFacts.

(** ** analyze_dataset *)


Lemma str_eqb_iff (a b : str) : str_eqb a b = true <-> a = b.
Proof. apply str_eqb_eq. Qed.

Lemma analyze_fold (dataset : list Row.t) :
  forall families complexity text_lengths ir_lengths,
  fold_left analyze_step dataset
    (families, complexity, text_lengths, ir_lengths)
  = (fold_left (fun d r => counter_bump str_eqb d (family_of r)) dataset
       families,
     fold_left (fun d r => counter_bump Z.eqb d (complexity_of r)) dataset
       complexity,
     text_lengths ++ map text_length dataset,
     ir_lengths ++ map ir_length dataset).
Proof.
  induction dataset as [|r dataset IH]; intros f c t i; cbn [fold_left map].
  - now rewrite !app_nil_r.
  - cbn [analyze_step]. rewrite IH, <- !app_assoc. reflexivity.
Qed.

Lemma analyze_dataset_eq (dataset : list Row.t) :
  analyze_dataset dataset
  = Stats.mk (List.length dataset)
      (fold_left (fun d r => counter_bump str_eqb d (family_of r)) dataset [])
      (fold_left (fun d r => counter_bump Z.eqb d (complexity_of r)) dataset [])
      (length_stats (map text_length dataset))
      (length_stats (map ir_length dataset)).
Proof.
  unfold analyze_dataset. rewrite analyze_fold. cbn [app].
  destruct dataset as [|r dataset]; reflexivity.
Qed.


Example analyze_dataset_example :
  analyze_dataset
    [ Row.mk (Some (lit "plate")) (Some 2%Z) (Some (lit "a plate"))
        (Some (lit "C 1 1 1"));
      Row.mk None None (Some (lit "rod")) None;
      Row.mk (Some (lit "plate")) (Some 2%Z) None (Some (lit "S 1")) ]
  = Stats.mk 3 [(lit "plate", 2); (lit "unknown", 1)] [(2%Z, 2); (0%Z, 1)]
      (Some (LengthStats.mk 0 7 (Qmake 10 3)))
      (Some (LengthStats.mk 0 7 (Qmake 10 3)))
  /\ analyze_dataset [] = Stats.mk 0 [] [] None None.
Proof. split; reflexivity. Qed.

(** ** Length statistics *)

Lemma list_min_spec (l : list nat) : forall x,
  In (list_min x l) (x :: l)
  /\ Forall (fun y => list_min x l <= y) (x :: l).
Proof.
  unfold list_min. induction l as [|a l IH]; intros x; cbn [fold_left].
  - split; [now left | repeat constructor].
  - destruct (IH (Nat.min x a)) as [Hin Hall]. split.
    + destruct Hin as [Hin | Hin]; [|now right; right].
      destruct (Nat.min_spec x a) as [[_ E] | [_ E]]; rewrite E in *;
        [now left | now right; left].
    + inversion Hall as [|? ? H0 Hl]. subst.
      constructor; [lia|]. constructor; [lia | exact Hl].
Qed.

Lemma list_max_spec (l : list nat) : forall x,
  In (list_max x l) (x :: l)
  /\ Forall (fun y => y <= list_max x l) (x :: l).
Proof.
  unfold list_max. induction l as [|a l IH]; intros x; cbn [fold_left].
  - split; [now left | repeat constructor].
  - destruct (IH (Nat.max x a)) as [Hin Hall]. split.
    + destruct Hin as [Hin | Hin]; [|now right; right].
      destruct (Nat.max_spec x a) as [[_ E] | [_ E]]; rewrite E in *;
        [now right; left | now left].
    + inversion Hall as [|? ? H0 Hl]. subst.
      constructor; [lia|]. constructor; [lia | exact Hl].
Qed.

Lemma list_total_from (l : list nat) : forall n,
  fold_left Nat.add l n = n + list_total l.
Proof.
  unfold list_total. induction l as [|a l IH]; intros n; cbn [fold_left].
  - lia.
  - rewrite (IH (n + a)), (IH (0 + a)). lia.
Qed.

Lemma list_total_bounds (lo hi : nat) (l : list nat) :
  Forall (fun y => lo <= y) l -> Forall (fun y => y <= hi) l ->
  lo * List.length l <= list_total l /\ list_total l <= hi * List.length l.
Proof.
  induction l as [|a l IH]; intros Hlo Hhi.
  - cbn. lia.
  - inversion Hlo as [|? ? Ha Hlo']; inversion Hhi as [|? ? Hb Hhi']; subst.
    destruct (IH Hlo' Hhi') as [IH1 IH2].
    unfold list_total. cbn [fold_left List.length].
    rewrite list_total_from. nia.
Qed.

Lemma length_stats_spec (lengths : list nat) :
  match length_stats lengths with
  | None => lengths = []
  | Some s =>
      In (LengthStats.min s) lengths
      /\ In (LengthStats.max s) lengths
      /\ Forall (fun y => LengthStats.min s <= y <= LengthStats.max s) lengths
      /\ LengthStats.mean s
         = true_div (list_total lengths) (List.length lengths)
      /\ (inject_Z (Z.of_nat (LengthStats.min s)) <= LengthStats.mean s)%Q
      /\ (LengthStats.mean s <= inject_Z (Z.of_nat (LengthStats.max s)))%Q
  end.
Proof.
  destruct lengths as [|x l]; [reflexivity|]. cbn [length_stats].
  cbn [LengthStats.min LengthStats.max LengthStats.mean].
  destruct (list_min_spec l x) as [Hmin Hlo].
  destruct (list_max_spec l x) as [Hmax Hhi].
  split; [exact Hmin|]. split; [exact Hmax|]. split; [|split; [reflexivity|]].
  - rewrite Forall_forall in *. intros y Hy.
    split; [now apply Hlo | now apply Hhi].
  - destruct (list_total_bounds _ _ _ Hlo Hhi) as [H1 H2].
    set (n := List.length (x :: l)) in *.
    assert (Hn : 0 < n) by (unfold n; cbn; lia).
    assert (Hp : Z.pos (Pos.of_nat n) = Z.of_nat n).
    { destruct n; [lia|].
      rewrite <- Pos.of_nat_succ, Zpos_P_of_succ_nat. lia. }
    unfold true_div, Qle, inject_Z. cbn [Qnum Qden]. rewrite Hp. split; nia.
Qed.


(* ================================================================= *)
(** * The run name *)

Lemma split_on_free (sep : ascii) (s : str) :
  Forall (fun piece => existsb (Ascii.eqb sep) piece = false) (split_on sep s).
Proof.
  induction s as [|c s IH]; cbn [split_on]; [repeat constructor|].
  destruct (Ascii.eqb c sep) eqn:E; [now constructor|].
  destruct (split_on sep s) as [|piece pieces]; [repeat constructor|].
  - cbn [existsb]. now rewrite Ascii.eqb_sym, E.
  - inversion IH as [|? ? Hp Hps]. subst. constructor; [|exact Hps].
    cbn [existsb]. now rewrite Ascii.eqb_sym, E, Hp.
Qed.

Lemma split_on_nonempty (sep : ascii) (s : str) :
  exists piece pieces, split_on sep s = piece :: pieces.
Proof.
  destruct s as [|c s]; cbn [split_on]; [eauto|].
  destruct (Ascii.eqb c sep); [eauto|]. destruct (split_on sep s); eauto.
Qed.

Lemma split_on_single (sep : ascii) (s : str) : forall p,
  split_on sep s = [p] -> p = s.
Proof.
  induction s as [|c s IH]; intros p H; cbn [split_on] in H.
  - now injection H.
  - destruct (split_on_nonempty sep s) as [q [qs E]]. rewrite E in H.
    destruct (Ascii.eqb c sep); [discriminate|].
    injection H as <- ->. f_equal. now apply IH.
Qed.

Lemma split_on_none (sep : ascii) (s : str) :
  existsb (Ascii.eqb sep) s = false -> split_on sep s = [s].
Proof.
  induction s as [|c s IH]; [reflexivity|]. cbn [existsb split_on].
  intros H. apply orb_false_iff in H. destruct H as [Hc Hs].
  rewrite Ascii.eqb_sym, Hc. now rewrite (IH Hs).
Qed.

(** The last piece of a split is the end of the text. *)
Lemma split_on_last_suffix (sep : ascii) (s : str) :
  exists front, s = front ++ last (split_on sep s) [].
Proof.
  induction s as [|c s [front IH]]; [now exists []|]. cbn [split_on].
  destruct (split_on_nonempty sep s) as [p [ps E]]. rewrite E in *.
  destruct (Ascii.eqb c sep).
  - rewrite last_cons. exists (c :: front). cbn [app]. now rewrite <- IH.
  - destruct ps as [|q ps].
    + exists []. cbn [last app]. f_equal. symmetry.
      now apply (split_on_single sep).
    + rewrite last_cons in *. exists (c :: front). cbn [app].
      now rewrite <- IH.
Qed.

Lemma last_in {A : Type} (x : A) (l : list A) (d : A) : In (last (x :: l) d) (x :: l).
Proof.
  revert x. induction l as [|y l IH]; intros x; [now left|].
  rewrite last_cons. right. apply IH.
Qed.

(** X19.  The run name of a training job is the name given, unless none or
    an empty one is given; then it is "cad0-", the part of the model name
    after its last "/" (the whole name when it has none) and "-lora", and
    it contains no "/". *)
Theorem X19_run_name (run_name : option str) (model_name : str) :
  let segment := last (split_on "/" model_name) [] in
  (forall name, run_name = Some name -> is_empty name = false ->
                run_name_or_default run_name model_name = name)
  /\ (run_name = None \/ run_name = Some [] ->
      run_name_or_default run_name model_name
      = lit "cad0-" ++ segment ++ lit "-lora"
      /\ existsb (Ascii.eqb "/")
           (run_name_or_default run_name model_name) = false)
  /\ (exists front, model_name = front ++ segment)
  /\ existsb (Ascii.eqb "/") segment = false
  /\ (existsb (Ascii.eqb "/") model_name = false -> segment = model_name).
Proof.
  cbn zeta.
  assert (Hfree : existsb (Ascii.eqb "/")
                    (last (split_on "/" model_name) []) = false).
  { pose proof (split_on_free "/" model_name) as H.
    rewrite Forall_forall in H. apply H.
    destruct (split_on_nonempty "/" model_name) as [p [ps ->]].
    apply last_in. }
  split; [|split; [|split; [|split]]].
  - intros name -> Hne. unfold run_name_or_default. now rewrite Hne.
  - intros Hnone.
    assert (Hr : run_name_or_default run_name model_name
                 = lit "cad0-" ++ last (split_on "/" model_name) []
                   ++ lit "-lora").
    { destruct Hnone as [-> | ->]; reflexivity. }
    split; [exact Hr|]. rewrite Hr, !existsb_app, Hfree. reflexivity.
  - apply split_on_last_suffix.
  - exact Hfree.
  - intros H. now rewrite (split_on_none _ _ H).
Qed.

Example run_name_examples :
  run_name_or_default None (lit "Qwen/Qwen2.5-Coder-7B")
  = lit "cad0-Qwen2.5-Coder-7B-lora"
  /\ run_name_or_default (Some (lit "trial")) (lit "Qwen/Qwen2.5-Coder-7B")
     = lit "trial".
Proof. split; reflexivity. Qed.

(* ================================================================= *)
(** * Further properties: order of the examples, accepted lines *)

Lemma count_perm {A : Type} (p : A -> bool) (l l' : list A) :
  Permutation l l' -> count p l = count p l'.
Proof.
  intros H. rewrite !count_filter. apply Permutation_length.
  induction H as [|x l l' _ IH|x y l|l l' l'' _ IH1 _ IH2]; cbn [filter].
  - constructor.
  - destruct (p x); [now constructor | exact IH].
  - destruct (p x), (p y); try reflexivity. apply perm_swap.
  - now transitivity (filter p l').
Qed.

(** X20.  The aggregation does not depend on the order of the examples:
    for a permutation of the results the total, the three counts and the
    three accuracies are the same, and so is the count under every key of
    the error histogram (the order of the keys may differ). *)
Theorem X20_aggregate_order_free (results results' : list EvalMetrics.t) :
  Permutation results results' ->
  AggregateMetrics.total (aggregate results)
  = AggregateMetrics.total (aggregate results')
  /\ AggregateMetrics.syntax_valid (aggregate results)
     = AggregateMetrics.syntax_valid (aggregate results')
  /\ AggregateMetrics.geometry_valid (aggregate results)
     = AggregateMetrics.geometry_valid (aggregate results')
  /\ AggregateMetrics.exact_match (aggregate results)
     = AggregateMetrics.exact_match (aggregate results')
  /\ AggregateMetrics.syntax_accuracy (aggregate results)
     = AggregateMetrics.syntax_accuracy (aggregate results')
  /\ AggregateMetrics.geometry_accuracy (aggregate results)
     = AggregateMetrics.geometry_accuracy (aggregate results')
  /\ AggregateMetrics.exact_match_accuracy (aggregate results)
     = AggregateMetrics.exact_match_accuracy (aggregate results')
  /\ compute_metrics results = compute_metrics results'
  /\ (forall key,
        dict_get (AggregateMetrics.errors (aggregate results)) key 0
        = dict_get (AggregateMetrics.errors (aggregate results')) key 0).
Proof.
  intros H.
  pose proof (Permutation_length H) as Hlen.
  pose proof (count_perm EvalMetrics.syntax_valid _ _ H) as Hs.
  pose proof (count_perm (fun r => is_True (EvalMetrics.geometry_valid r))
                _ _ H) as Hg.
  pose proof (count_perm EvalMetrics.exact_match _ _ H) as He.
  unfold aggregate, compute_metrics.
  cbn [AggregateMetrics.total AggregateMetrics.syntax_valid
       AggregateMetrics.geometry_valid AggregateMetrics.exact_match
       AggregateMetrics.syntax_accuracy AggregateMetrics.geometry_accuracy
       AggregateMetrics.exact_match_accuracy AggregateMetrics.errors].
  rewrite Hlen, Hs, Hg, He. repeat split.
  intros key.
  destruct (record_errors results [] (NoDup_nil _)) as (_ & _ & _ & H1);
    [intros k v []|].
  destruct (record_errors results' [] (NoDup_nil _)) as (_ & _ & _ & H2);
    [intros k v []|].
  rewrite H1, H2. f_equal. now apply count_perm.
Qed.

Lemma X20_witness :
  let a := EvalMetrics.mk true None true (lit "S 1") None in
  let b := EvalMetrics.mk false None false (lit "X")
             (Some (lit "Invalid syntax at line 1: X")) in
  AggregateMetrics.syntax_accuracy (aggregate [a; b])
  = AggregateMetrics.syntax_accuracy (aggregate [b; a])
  /\ compute_metrics [a; b] = compute_metrics [b; a].
Proof.
  pose proof (X20_aggregate_order_free
                [EvalMetrics.mk true None true (lit "S 1") None;
                 EvalMetrics.mk false None false (lit "X")
                   (Some (lit "Invalid syntax at line 1: X"))]
                [EvalMetrics.mk false None false (lit "X")
                   (Some (lit "Invalid syntax at line 1: X"));
                 EvalMetrics.mk true None true (lit "S 1") None]
                (perm_swap _ _ _))
    as (_ & _ & _ & _ & Hacc & _ & _ & Hcm & _).
  split; [exact Hacc | exact Hcm].
Defined.

(** ** Lines the table accepts *)

Lemma plus_exec_run (k : cclass) (cont : str -> bool) (t rest : str) :
  run_of (in_class k) t = true -> cont rest = true ->
  plus_exec k cont (t ++ rest) = true.
Proof.
  unfold run_of. intros H Hc. apply andb_true_iff in H. destruct H as [Hne H].
  induction t as [|c t IH]; [discriminate|].
  cbn [forallb] in H. apply andb_true_iff in H. destruct H as [Hc' Ht].
  cbn [app plus_exec]. rewrite Hc'. cbn [andb].
  destruct t as [|d t]; [cbn [app]; rewrite Hc; apply orb_true_r|].
  rewrite IH; [reflexivity | reflexivity | exact Ht].
Qed.

Lemma exec_kind_token (k : operand_kind) (cont : str -> bool) (t rest : str) :
  token_ok k t = true -> cont rest = true ->
  exec (regex_of_kind k) cont (t ++ rest) = true.
Proof.
  intros Ht Hc. destruct k.
  - now apply plus_exec_run.
  - change (exec (Chr "-") (plus_exec DigitDot cont) (t ++ rest)
            || plus_exec DigitDot cont (t ++ rest) = true).
    destruct t as [|c t]; [discriminate|]. cbn [token_ok] in Ht.
    destruct (Ascii.eqb c "-") eqn:E.
    + apply Ascii.eqb_eq in E. subst c. cbn [app exec].
      rewrite Ascii.eqb_refl, (plus_exec_run _ _ _ _ Ht Hc). reflexivity.
    + rewrite (plus_exec_run _ _ _ _ Ht Hc). apply orb_true_r.
  - now apply plus_exec_run.
Qed.

Lemma exec_operands (kinds : list operand_kind) : forall tokens,
  conforms kinds tokens = true ->
  exec_list (flat_map (fun k => [ws; regex_of_kind k]) kinds) at_end
            (flat_map (fun t => " " :: t) tokens) = true.
Proof.
  induction kinds as [|k kinds IH]; intros [|t tokens] H;
    try discriminate; [reflexivity|].
  cbn [conforms] in H. apply andb_true_iff in H. destruct H as [Ht Hc].
  cbn [flat_map exec_list fold_right app].
  change (plus_exec Space
            (exec (regex_of_kind k)
               (exec_list (flat_map (fun k => [ws; regex_of_kind k]) kinds)
                  at_end))
            ([" "] ++ t ++ flat_map (fun t => " " :: t) tokens) = true).
  apply plus_exec_run; [reflexivity|].
  apply exec_kind_token; [exact Ht | now apply IH].
Qed.

Lemma exec_opcode (op : str) (rest : list regex) (cont : str -> bool)
  (s : str) :
  exec_list rest cont s = true ->
  exec_list (map Chr op ++ rest) cont (op ++ s) = true.
Proof.
  intros H. induction op as [|c op IH]; [exact H|].
  cbn [map app exec_list fold_right exec].
  now rewrite Ascii.eqb_refl.
Qed.

Lemma instruction_matches (op : str) (kinds : list operand_kind)
  (tokens : list str) :
  In (op, kinds) GRAMMAR ->
  conforms kinds tokens = true ->
  matches_grammar (instruction op tokens) = true.
Proof.
  intros Hin Hc. unfold matches_grammar, matches_any.
  assert (Hp : In (pattern_of (op, kinds)) (map snd COMPACT_IR_PATTERNS)).
  { rewrite patterns_of_grammar. now apply in_map. }
  apply in_map_iff in Hp. destruct Hp as [e [He Hine]].
  apply existsb_exists. exists e. split; [exact Hine|]. rewrite He.
  pose proof grammar_opcodes as Hops. rewrite forallb_forall in Hops.
  specialize (Hops _ Hin). cbn [fst] in Hops.
  unfold re_match, pattern_of. cbn [fst snd].
  destruct (atoms_of op kinds) as [|r rs] eqn:E.
  - destruct op; discriminate.
  - rewrite exec_seq, <- E. unfold atoms_of, instruction.
    apply exec_opcode. now apply exec_operands.
Qed.

Lemma word_ends_nonspace (t : str) :
  run_of nonspace t = true -> ends_nonspace t.
Proof.
  unfold run_of. intros H. apply andb_true_iff in H. destruct H as [Hne H].
  destruct (exists_last (l := t)) as [front [c E]]; [now destruct t|].
  exists front, c. split; [exact E|]. subst t.
  rewrite forallb_app in H. apply andb_true_iff in H. destruct H as [_ H].
  cbn [forallb] in H. rewrite andb_true_r in H. now apply negb_true_iff in H.
Qed.

Lemma rstrip_ends_nonspace (s : str) : ends_nonspace s -> rstrip s = s.
Proof.
  intros [front [c [-> Hc]]]. unfold rstrip.
  induction front as [|a front IH]; cbn [app rstrip_by].
  - now rewrite Hc.
  - rewrite IH. now destruct front.
Qed.

Lemma instruction_cons (op t : str) (tokens : list str) :
  instruction op (t :: tokens) = instruction (op ++ " " :: t) tokens.
Proof. unfold instruction. cbn [flat_map]. now rewrite <- app_assoc. Qed.

Lemma instruction_ends (tokens : list str) : forall op,
  ends_nonspace op ->
  Forall (fun t => run_of nonspace t = true) tokens ->
  ends_nonspace (instruction op tokens).
Proof.
  induction tokens as [|t tokens IH]; intros op Hop Ht.
  - unfold instruction. cbn [flat_map]. now rewrite app_nil_r.
  - inversion Ht as [|? ? Hw Hts]. subst. rewrite instruction_cons.
    apply IH; [|exact Hts].
    destruct (word_ends_nonspace _ Hw) as [front [c [-> Hc]]].
    exists (op ++ " " :: front), c. split; [|exact Hc].
    now rewrite <- app_assoc.
Qed.

Lemma word_no_newline (t : str) :
  forallb nonspace t = true -> existsb (Ascii.eqb "010") t = false.
Proof.
  induction t as [|c t IH]; [reflexivity|]. cbn [forallb existsb].
  intros H. apply andb_true_iff in H. destruct H as [Hc Ht].
  apply negb_true_iff in Hc. rewrite Ascii.eqb_sym, (newline_is_space _ Hc).
  now apply IH.
Qed.

Lemma instruction_no_newline (tokens : list str) : forall op,
  existsb (Ascii.eqb "010") op = false ->
  Forall (fun t => run_of nonspace t = true) tokens ->
  existsb (Ascii.eqb "010") (instruction op tokens) = false.
Proof.
  induction tokens as [|t tokens IH]; intros op Hop Ht.
  - unfold instruction. cbn [flat_map]. now rewrite app_nil_r.
  - inversion Ht as [|? ? Hw Hts]. subst. rewrite instruction_cons.
    apply IH; [|exact Hts]. rewrite existsb_app, Hop. cbn [existsb orb].
    apply word_no_newline. unfold run_of in Hw.
    now apply andb_true_iff in Hw.
Qed.

Lemma conforms_words (kinds : list operand_kind) : forall tokens,
  conforms kinds tokens = true ->
  Forall (fun t => run_of nonspace t = true) tokens.
Proof.
  induction kinds as [|k kinds IH]; intros [|t tokens] H;
    try discriminate; [constructor|].
  cbn [conforms] in H. apply andb_true_iff in H. destruct H as [Ht Hc].
  constructor; [now apply (token_ok_word k) | now apply IH].
Qed.

(** An instruction of the grammar is a single stripped line. *)
Lemma instruction_stripped (op : str) (kinds : list operand_kind)
  (tokens : list str) :
  In (op, kinds) GRAMMAR ->
  conforms kinds tokens = true ->
  strip (instruction op tokens) = instruction op tokens
  /\ split_on "010" (instruction op tokens) = [instruction op tokens]
  /\ is_empty (instruction op tokens) = false.
Proof.
  intros Hin Hc.
  pose proof grammar_opcodes as Hops. rewrite forallb_forall in Hops.
  specialize (Hops _ Hin). cbn [fst] in Hops.
  pose proof (conforms_words _ _ Hc) as Hw.
  assert (Hop : run_of nonspace op = true) by exact Hops.
  unfold run_of in Hops. apply andb_true_iff in Hops.
  destruct Hops as [Hne Hns]. destruct op as [|c op]; [discriminate|].
  assert (Hcns : isspace c = false).
  { cbn [forallb] in Hns. apply andb_true_iff in Hns.
    destruct Hns as [Hcns _]. now apply negb_true_iff in Hcns. }
  split; [|split; [|reflexivity]].
  - unfold strip, lstrip, instruction. cbn [app lstrip_by]. rewrite Hcns.
    apply rstrip_ends_nonspace.
    apply (instruction_ends tokens (c :: op)); [|exact Hw].
    now apply word_ends_nonspace.
  - apply split_on_none. apply instruction_no_newline; [|exact Hw].
    now apply word_no_newline.
Qed.

Lemma grammar_primitive (op : str) (kinds : list operand_kind) :
  In (op, kinds) GRAMMAR ->
  is_primitive op
  = negb (mem op [lit "T"; lit "R"; lit "SC"])
    && negb (mem op [lit "U"; lit "D"; lit "I"]).
Proof.
  intros H. cbv [GRAMMAR In] in H.
  repeat (destruct H as [H | H]; [injection H as <- _; reflexivity|]).
  contradiction.
Qed.



(* ================================================================= *)
(** * Blank lines and indentation *)

Lemma split_on_all_space (s : str) :
  forallb isspace s = true ->
  Forall (fun piece => forallb isspace piece = true) (split_on "010" s).
Proof.
  induction s as [|c s IH]; intros H; cbn [split_on]; [repeat constructor|].
  cbn [forallb] in H. apply andb_true_iff in H. destruct H as [Hc Hs].
  specialize (IH Hs). destruct (Ascii.eqb c "010"); [now constructor|].
  destruct (split_on "010" s) as [|p ps]; [repeat constructor; cbn; now rewrite Hc|].
  inversion IH as [|? ? Hp Hps]. subst. constructor; [|exact Hps].
  cbn [forallb]. now rewrite Hc, Hp.
Qed.

Lemma nonblank_of_all_space (lines : list str) :
  Forall (fun piece => forallb isspace piece = true) lines ->
  nonblank_of lines = [].
Proof.
  induction 1 as [|l lines Hl _ IH]; [reflexivity|].
  rewrite nonblank_of_cons. unfold is_blank.
  apply strip_nil in Hl. now rewrite Hl.
Qed.

Lemma nonblank_of_head (p q : str) (ps : list str) :
  strip p = strip q -> nonblank_of (p :: ps) = nonblank_of (q :: ps).
Proof. intros H. rewrite !nonblank_of_cons. unfold is_blank. now rewrite H. Qed.

Lemma strip_space_cons (c : ascii) (p : str) :
  isspace c = true -> strip (c :: p) = strip p.
Proof. intros H. unfold strip, lstrip. cbn [lstrip_by]. now rewrite H. Qed.

Lemma lines_of_lstrip (s : str) :
  nonblank_of (split_on "010" (lstrip s)) = nonblank_of (split_on "010" s).
Proof.
  unfold lstrip. induction s as [|c s IH]; [reflexivity|].
  cbn [lstrip_by]. destruct (isspace c) eqn:Hc; [|reflexivity].
  rewrite IH. cbn [split_on]. destruct (Ascii.eqb c "010").
  - rewrite nonblank_of_cons. reflexivity.
  - destruct (split_on_nonempty "010" s) as [p [ps ->]].
    apply nonblank_of_head. symmetry. now apply strip_space_cons.
Qed.

Lemma split_on_step (sep c : ascii) (s : str) :
  split_on sep (c :: s)
  = if Ascii.eqb c sep then [] :: split_on sep s
    else match split_on sep s with
         | [] => [[c]]
         | piece :: pieces => (c :: piece) :: pieces
         end.
Proof. reflexivity. Qed.

(** Stripping the end of a text shortens its lines only by white space and
    by blank lines. *)
Lemma lines_of_rstrip (s : str) :
  exists p1 ps1 p2 ps2 w,
    split_on "010" (rstrip s) = p1 :: ps1
    /\ split_on "010" s = p2 :: ps2
    /\ p2 = p1 ++ w /\ forallb isspace w = true
    /\ nonblank_of ps1 = nonblank_of ps2.
Proof.
  unfold rstrip. induction s as [|c s IH].
  - exists [], [], [], [], []. repeat split.
  - destruct IH as (p1 & ps1 & p2 & ps2 & w & H1 & H2 & Hp & Hw & Hn).
    cbn [rstrip_by]. destruct (rstrip_by isspace s) as [|a r] eqn:E.
    + apply rstrip_by_nil in E.
      pose proof (split_on_all_space _ E) as Hall. rewrite H2 in Hall.
      inversion Hall as [|? ? Hp2 Hps2]. subst.
      destruct (isspace c) eqn:Hc.
      * cbn [split_on]. destruct (Ascii.eqb c "010").
        -- exists [], [], [], ((p1 ++ w) :: ps2), []. rewrite H2.
           repeat split. symmetry. apply nonblank_of_all_space.
           now constructor.
        -- rewrite H2. exists [], [], (c :: p1 ++ w), ps2, (c :: p1 ++ w).
           repeat split.
           ++ cbn [forallb]. now rewrite Hc, Hp2.
           ++ symmetry. now apply nonblank_of_all_space.
      * cbn [split_on]. rewrite (newline_is_space _ Hc), H2.
        exists [c], [], (c :: p1 ++ w), ps2, (p1 ++ w).
        repeat split; [exact Hp2|].
        symmetry. now apply nonblank_of_all_space.
    + rewrite (split_on_step "010" c (a :: r)), (split_on_step "010" c s).
      rewrite H1, H2. destruct (Ascii.eqb c "010").
      * exists [], (p1 :: ps1), [], (p2 :: ps2), []. repeat split.
        rewrite !nonblank_of_cons, Hn. unfold is_blank. subst p2.
        assert (Hs : strip (p1 ++ w) = strip p1).
        { apply (strip_pad [] p1 w); [reflexivity | exact Hw]. }
        now rewrite Hs.
      * exists (c :: p1), ps1, (c :: p2), ps2, w. repeat split; try assumption.
        now subst p2.
Qed.

(** The non-blank lines of the stripped text are those of the text. *)
Lemma logical_lines_raw (ir : str) :
  logical_lines ir = nonblank_of (split_on "010" ir).
Proof.
  rewrite logical_lines_nonblank. unfold strip.
  destruct (lines_of_rstrip (lstrip ir))
    as (p1 & ps1 & p2 & ps2 & w & H1 & H2 & Hp & Hw & Hn).
  rewrite H1, <- lines_of_lstrip, H2, !nonblank_of_cons, Hn.
  unfold is_blank. subst p2.
  assert (Hs : strip (p1 ++ w) = strip p1).
  { apply (strip_pad [] p1 w); [reflexivity | exact Hw]. }
  now rewrite Hs.
Qed.

Lemma references_loop_nonblank (lines : list str) : forall n,
  references_loop lines n = references_loop (nonblank_of lines) n.
Proof.
  induction lines as [|l lines IH]; intros n; [reflexivity|].
  rewrite nonblank_of_cons. unfold is_blank. cbn [references_loop].
  destruct (is_empty (strip l)) eqn:E; [apply IH|].
  cbn [references_loop]. rewrite strip_idem, E.
  destruct (check_parts (split_ws (strip l)) n) as [[v|]|e]; try reflexivity.
  apply IH.
Qed.

Lemma line_ok_nonblank (lines : list str) :
  forallb (line_ok COMPACT_IR_PATTERNS) lines
  = forallb matches_grammar (nonblank_of lines).
Proof.
  induction lines as [|l lines IH]; [reflexivity|].
  rewrite nonblank_of_cons. cbn [forallb]. rewrite IH.
  unfold line_ok at 1. unfold is_blank.
  destruct (is_empty (strip l)); reflexivity.
Qed.

(** Whether the syntax is valid, from the non-blank lines alone. *)
Lemma validate_syntax_flag (ir : str) :
  fst (validate_syntax ir)
  = negb (is_empty_list (logical_lines ir))
    && forallb matches_grammar (logical_lines ir).
Proof.
  destruct (is_empty (strip ir)) eqn:E.
  - assert (Hl : logical_lines ir = []).
    { apply is_empty_true in E. rewrite logical_lines_nonblank, E.
      reflexivity. }
    rewrite Hl. unfold validate_syntax, validate_syntax_with.
    now rewrite E, orb_true_r.
  - destruct (logical_lines_first ir E) as [l [ls [_ [_ Hl]]]].
    rewrite Hl at 1. cbn [is_empty_list negb andb].
    rewrite logical_lines_nonblank, <- line_ok_nonblank.
    destruct (forallb (line_ok COMPACT_IR_PATTERNS)
                (split_on "010" (strip ir))) eqn:Hok.
    + assert (H : validate_syntax ir = (true, None)).
      { apply validate_syntax_succeeds_iff. now split. }
      now rewrite H.
    + destruct (fst (validate_syntax ir)) eqn:Hf; [|reflexivity].
      apply validate_syntax_true in Hf. congruence.
Qed.


